(** * mastodon2jekyll: a shallow embedding of [mastodon2jekyll.py]

    The script turns a Mastodon export archive ([outbox.json]) into Jekyll
    posts.  This development embeds the script function by function and
    proves properties of the selection policy, title derivation, front
    matter, attachment handling, thread reconstruction and the
    non-destructive write of the driver.

    Conventions of the embedding.
    - A Python [str] is a Rocq [string]; its characters stand for the code
      points below 256, and the character classes (whitespace, case,
      punctuation) are Python's on that range.
    - A value read by [json.load] is a [json] tree; a [dict] is an
      association list that lists every key once and is read by its first
      binding.  JSON numbers are the integers.
    - A Python exception is a value of [exn]; code that can raise returns an
      [outcome].
    - Code that prints, tests the file system or writes files runs in the
      state monad [M] over a [World] and keeps the world when it raises.
    - Library code that the script only calls (HTML entity decoding,
      BeautifulSoup, PyYAML, the time zone database, [repr]) is the
      interface [Library]. *)

From Stdlib Require Import ZArith Ascii String List Lia Bool DecimalString.
From Stdlib Require Import Relations.Relation_Operators Relations.Operators_Properties.
From stdpp Require Import base gmap strings list fin_maps.

Local Open Scope Z_scope.
Set Warnings "-register-all".

(** ** Characters and strings *)

Module PyStr.

Definition code (c : ascii) : nat := nat_of_ascii c.

(** [str.isspace] on one character; also the class matched by [\s] and
    the separators of [str.split()]. *)
Definition is_space (c : ascii) : bool :=
  let n := code c in
  ((9 <=? n) && (n <=? 13) || (28 <=? n) && (n <=? 32)
   || (n =? 133) || (n =? 160))%nat.

(** Membership in [string.punctuation]. *)
Definition is_punct (c : ascii) : bool :=
  let n := code c in
  ((33 <=? n) && (n <=? 47) || (58 <=? n) && (n <=? 64)
   || (91 <=? n) && (n <=? 96) || (123 <=? n) && (n <=? 126))%nat.

Definition lower_char (c : ascii) : ascii :=
  let n := code c in
  if ((65 <=? n) && (n <=? 90)
      || (192 <=? n) && (n <=? 222) && negb (n =? 215))%nat
  then ascii_of_nat (n + 32) else c.

Definition eqc (a b : ascii) : bool := Ascii.eqb a b.

Fixpoint map_chars (f : ascii -> ascii) (s : string) : string :=
  match s with
  | EmptyString => EmptyString
  | String c r => String (f c) (map_chars f r)
  end.

Fixpoint filter_chars (p : ascii -> bool) (s : string) : string :=
  match s with
  | EmptyString => EmptyString
  | String c r => if p c then String c (filter_chars p r) else filter_chars p r
  end.

(** [s.lower()] *)
Definition lower (s : string) : string := map_chars lower_char s.

(** [s.lstrip(chars)], the characters to strip given as a predicate. *)
Fixpoint lstrip (p : ascii -> bool) (s : string) : string :=
  match s with
  | EmptyString => EmptyString
  | String c r => if p c then lstrip p r else s
  end.

(** [s.rstrip(chars)] *)
Fixpoint rstrip (p : ascii -> bool) (s : string) : string :=
  match s with
  | EmptyString => EmptyString
  | String c r =>
      match rstrip p r with
      | EmptyString => if p c then EmptyString else String c EmptyString
      | r' => String c r'
      end
  end.

(** [s.startswith(p)] *)
Fixpoint startswith (p s : string) : bool :=
  match p with
  | EmptyString => true
  | String a p' =>
      match s with
      | EmptyString => false
      | String b s' => eqc a b && startswith p' s'
      end
  end.

(** [s.endswith(c)] for a one-character suffix [c]. *)
Fixpoint endswith_char (c : ascii) (s : string) : bool :=
  match s with
  | EmptyString => false
  | String a EmptyString => eqc a c
  | String _ r => endswith_char c r
  end.

(** [sub in s] on strings. *)
Fixpoint contains (sub s : string) : bool :=
  startswith sub s
  || match s with
     | EmptyString => false
     | String _ r => contains sub r
     end.

Definition starts_word (s : string) : bool :=
  match s with
  | EmptyString => false
  | String c _ => negb (is_space c)
  end.

(** [s.split()]: the maximal runs of non-whitespace characters. *)
Fixpoint split (s : string) : list string :=
  match s with
  | EmptyString => []
  | String c r =>
      if is_space c then split r
      else if starts_word r then
             match split r with
             | w :: ws => String c w :: ws
             | [] => [String c EmptyString]
             end
           else String c EmptyString :: split r
  end.

(** [sep.join(l)] *)
Fixpoint join (sep : string) (l : list string) : string :=
  match l with
  | [] => EmptyString
  | [w] => w
  | w :: ws => w +:+ sep +:+ join sep ws
  end.

(** [s.replace(old, new)]: leftmost, non-overlapping occurrences.  [skip]
    counts the characters of a matched occurrence still to be dropped. *)
Fixpoint replace_from (skip : nat) (old new s : string) : string :=
  match s with
  | EmptyString => EmptyString
  | String c r =>
      match skip with
      | S k => replace_from k old new r
      | O =>
          if startswith old s
          then new +:+ replace_from (String.length old - 1) old new r
          else String c (replace_from 0 old new r)
      end
  end.

Fixpoint intersperse (new s : string) : string :=
  match s with
  | EmptyString => new
  | String c r => new +:+ String c (intersperse new r)
  end.

Definition replace (old new s : string) : string :=
  match old with
  | EmptyString => intersperse new s
  | _ => replace_from 0 old new s
  end.

(** Length of the shortest match of [.*?>] at the head of [s]: the
    characters up to and including the first [>], none of them a line
    feed. *)
Fixpoint tag_rest (s : string) : option nat :=
  match s with
  | EmptyString => None
  | String c r =>
      if eqc c ">" then Some 1%nat
      else if eqc c "010" then None
      else option_map S (tag_rest r)
  end.

Fixpoint strip_tags_from (skip : nat) (s : string) : string :=
  match s with
  | EmptyString => EmptyString
  | String c r =>
      match skip with
      | S k => strip_tags_from k r
      | O =>
          if eqc c "<" then
            match tag_rest r with
            | Some n => strip_tags_from n r
            | None => String c (strip_tags_from 0 r)
            end
          else String c (strip_tags_from 0 r)
      end
  end.

(** [re.sub(r"<.*?>", "", s)] *)
Definition strip_tags (s : string) : string := strip_tags_from 0 s.

(** [os.path.basename]: what follows the last [/]. *)
Fixpoint basename (s : string) : string :=
  match s with
  | EmptyString => EmptyString
  | String c r =>
      if contains "/" r then basename r
      else if eqc c "/" then r else s
  end.

(** The part of a path up to and including its last [/]. *)
Fixpoint dirname_head (s : string) : string :=
  match s with
  | EmptyString => EmptyString
  | String c r =>
      if contains "/" r then String c (dirname_head r)
      else if eqc c "/" then "/" else EmptyString
  end.

(** [os.path.dirname]: the head without its trailing slashes, unless it
    consists of slashes only. *)
Definition dirname (s : string) : string :=
  let head := dirname_head s in
  match lstrip (eqc "/") head with
  | EmptyString => head
  | _ => rstrip (eqc "/") head
  end.

(** [str(n)] for an integer. *)
Definition of_Z (n : Z) : string := NilZero.string_of_int (Z.to_int n).

Definition of_nat (n : nat) : string := of_Z (Z.of_nat n).

(** Two digits, as [%m], [%d], [%H], [%M] and [%S] print them. *)
Definition pad2 (n : Z) : string :=
  if n <? 10 then "0" +:+ of_Z n else of_Z n.

(** [html.escape(s)] with [quote=True]. *)
Fixpoint html_escape (s : string) : string :=
  match s with
  | EmptyString => EmptyString
  | String c r =>
      (if eqc c "&" then "&amp;"
       else if eqc c "<" then "&lt;"
       else if eqc c ">" then "&gt;"
       else if eqc c "034" then "&quot;"
       else if eqc c "'" then "&#x27;"
       else String c EmptyString) +:+ html_escape r
  end.

End PyStr.

Import PyStr.

(** The double-quote character, and a string holding just it. *)
Definition dquote : string := String "034" EmptyString.

(** ** JSON values, exceptions and Python's operations on values *)

Inductive json : Type :=
| JNull
| JBool (b : bool)
| JNum (n : Z)
| JStr (s : string)
| JList (l : list json)
| JDict (kvs : list (string * json)).

Inductive exn : Type :=
| KeyError (key : string)
| TypeError
| AttributeError
| ValueError (msg : string)
| RecursionError
| FileExistsError (path : string)
| FileNotFoundError (path : string)
| NotADirectoryError (path : string)
| SameFileError (path : string)
| ZoneInfoNotFoundError (key : string).

Inductive outcome (A : Type) : Type :=
| Ret (a : A)
| Raise (e : exn).

Arguments Ret {A} a.
Arguments Raise {A} e.

Definition obind {A B : Type} (x : outcome A) (f : A -> outcome B) : outcome B :=
  match x with
  | Ret a => f a
  | Raise e => Raise e
  end.

Declare Scope outcome_scope.
Delimit Scope outcome_scope with outcome.
Notation "'let?' x ':=' c 'in' k" := (obind c (fun x => k))
  (at level 10, x name, c at level 100, k at level 200) : outcome_scope.
Local Open Scope outcome_scope.

(** [d[k]] for a dict given by its bindings. *)
Fixpoint assoc (k : string) (kvs : list (string * json)) : option json :=
  match kvs with
  | [] => None
  | (k', v) :: rest => if String.eqb k k' then Some v else assoc k rest
  end.

Definition has_key (k : string) (kvs : list (string * json)) : bool :=
  match assoc k kvs with Some _ => true | None => false end.

(** [a == b]: numbers and booleans compare by value ([True == 1]), lists
    element by element, dicts as maps. *)
Fixpoint py_eq (a b : json) {struct a} : bool :=
  match a, b with
  | JNull, JNull => true
  | JBool x, JBool y => Bool.eqb x y
  | JBool x, JNum n => n =? (if x then 1 else 0)
  | JNum n, JBool x => n =? (if x then 1 else 0)
  | JNum x, JNum y => x =? y
  | JStr x, JStr y => String.eqb x y
  | JList x, JList y =>
      (fix all2 (x y : list json) {struct x} : bool :=
         match x, y with
         | [], [] => true
         | u :: x', v :: y' => py_eq u v && all2 x' y'
         | _, _ => false
         end) x y
  | JDict x, JDict y =>
      (fix sub (x : list (string * json)) {struct x} : bool :=
         match x with
         | [] => true
         | (k, u) :: x' =>
             match assoc k y with
             | Some v => py_eq u v
             | None => false
             end && sub x'
         end) x
      && forallb (fun kv => has_key (fst kv) x) y
  | _, _ => false
  end.

(** [bool(v)] *)
Definition truthy (v : json) : bool :=
  match v with
  | JNull => false
  | JBool b => b
  | JNum n => negb (n =? 0)
  | JStr s => negb (String.eqb s EmptyString)
  | JList l => match l with [] => false | _ => true end
  | JDict kvs => match kvs with [] => false | _ => true end
  end.

(** [isinstance(v, dict)], [isinstance(v, list)] *)
Definition is_dict (v : json) : bool :=
  match v with JDict _ => true | _ => false end.

Definition is_list (v : json) : bool :=
  match v with JList _ => true | _ => false end.

(** [v[k]] with a string key [k]: [KeyError] on a dict without the key,
    [TypeError] on every other value. *)
Definition getitem (v : json) (k : string) : outcome json :=
  match v with
  | JDict kvs =>
      match assoc k kvs with
      | Some x => Ret x
      | None => Raise (KeyError k)
      end
  | _ => Raise TypeError
  end.

(** [k in v] with a string [k]: key of a dict, element of a list,
    substring of a string; [TypeError] on the other values. *)
Definition py_in (k : string) (v : json) : outcome bool :=
  match v with
  | JDict kvs => Ret (has_key k kvs)
  | JList l => Ret (existsb (py_eq (JStr k)) l)
  | JStr s => Ret (contains k s)
  | _ => Raise TypeError
  end.

(** A [str] method applied to a value: [AttributeError] unless the value is
    a string. *)
Definition str_method {A : Type} (f : string -> A) (v : json) : outcome A :=
  match v with
  | JStr s => Ret (f s)
  | _ => Raise AttributeError
  end.

(** ** Configuration: the constants at the head of the script *)

Record config : Type := Config {
  archive_filename : string;
  posts_dir : string;
  attachment_dir : string;
  my_actor : string;
  local_timezone : string;
  set_published : bool;
  post_layout : string;
  max_title_words : nat;
  keep_tag_links : bool;
  wanted_tags : list string;
  debug : bool
}.

Definition default_config : config := {|
  archive_filename := "./outbox.json";
  posts_dir := "./_posts";
  attachment_dir := "./assets/images";
  my_actor := "https://mastodon.example.com/users/myname";
  local_timezone := "America/Indiana/Indianapolis";
  set_published := false;
  post_layout := "single";
  max_title_words := 15;
  keep_tag_links := false;
  wanted_tags := ["#sometopic"; "#cats"];
  debug := false
|}.

(** ** The libraries the script calls *)

Class Library : Type := {
  (** [html.unescape] on a string that holds an ampersand: its character
      references replaced. *)
  html_charrefs : string -> string;
  (** [BeautifulSoup(text, 'html.parser')], the [a] elements of class
      [mention hashtag] decomposed unless the flag is set, then
      [prettify()]. *)
  soup_prettify : bool -> string -> string;
  (** [yaml.dump(l, default_flow_style=flow)] *)
  yaml_dump : list json -> bool -> string;
  (** [ZoneInfo(name)]: the offset from UTC, in seconds, the zone has at
      an instant given in seconds since the epoch; [None] for an unknown
      name. *)
  zone_offset : string -> option (Z -> Z);
  (** [datetime.fromisoformat] on the spellings [parse_iso] below does not
      read, as an instant; [None] where it raises [ValueError]. *)
  fromisoformat_other : string -> option Z;
  (** [str(v)] for a list or a dict. *)
  repr_container : json -> string
}.

(** ** Tag extractor *)

(** The loop of [get_post_tags] over the entries of [tag]. *)
Fixpoint tag_loop (lowercase removeoctothorpe : bool) (tags posttags : list json)
  : outcome (list json) :=
  match tags with
  | [] => Ret posttags
  | tag :: rest =>
      let? ty := getitem tag "type" in
      if py_eq ty (JStr "Hashtag") then
        let? tagname := getitem tag "name" in
        let? tagname :=
          if lowercase then str_method (fun s => JStr (lower s)) tagname
          else Ret tagname in
        let? tagname :=
          if removeoctothorpe
          then str_method (fun s => JStr (lstrip (eqc "#") s)) tagname
          else Ret tagname in
        tag_loop lowercase removeoctothorpe rest (posttags ++ [tagname])
      else tag_loop lowercase removeoctothorpe rest posttags
  end.

Definition get_post_tags (post : json) (lowercase removeoctothorpe : bool)
  : outcome (list json) :=
  let? object := getitem post "object" in
  let? present := py_in "tag" object in
  if negb present then Ret []
  else
    let? tag := getitem object "tag" in
    match tag with
    | JList tags => tag_loop lowercase removeoctothorpe tags []
    | _ => Ret []
    end.

(** ** Title, slug and file name *)

(** [html.unescape]: a string without an ampersand is returned as it is. *)
Definition html_unescape `{Library} (s : string) : string :=
  if contains "&" s then html_charrefs s else s.

(** The three [replace] calls that clean a word of the title. *)
Definition clean_word (word : string) : string :=
  let word := replace ":" "" word in
  let word := replace dquote "" word in
  replace "'" "" word.

(** The test in front of the [break] of [make_post_title]:
    [word.endswith('.') or word.endswith('\n')]. *)
Definition stops (word : string) : bool :=
  endswith_char "." word || endswith_char "010" word.

(** The loop of [make_post_title] over [firstwords], with its [break]. *)
Fixpoint title_loop (firstwords titlewords : list string) : list string :=
  match firstwords with
  | [] => titlewords
  | word :: rest =>
      let word := clean_word word in
      let titlewords := titlewords ++ [word] in
      if stops word then titlewords else title_loop rest titlewords
  end.

(** [plaintext]: the content with a blank line between paragraphs, its
    tags stripped and its entities decoded. *)
Definition plain_text `{Library} (content : string) : string :=
  let withnewlines :=
    replace "</p><p>" ("</p>" +:+ String "010" (String "010" "<p>")) content in
  html_unescape (strip_tags withnewlines).

(** The text of a title from the [content] string. *)
Definition title_of_content `{Library} (cfg : config) (content : string) : string :=
  let firstwords := firstn (max_title_words cfg) (split (plain_text content)) in
  rstrip is_punct (join " " (title_loop firstwords [])).

Definition make_post_title `{Library} (cfg : config) (post : json) : outcome string :=
  let? object := getitem post "object" in
  let? content := getitem object "content" in
  str_method (title_of_content cfg) content.

Definition slug_of_title (title : string) : string :=
  let title := lower title in
  let title := filter_chars (fun c => negb (is_punct c)) title in
  map_chars (fun c => if is_space c then "-"%char else c)
            (replace "  " " " title).

Definition make_post_slug `{Library} (cfg : config) (post : json) : outcome string :=
  let? title := make_post_title cfg post in
  Ret (slug_of_title title).

(** *** Dates *)

(** Days since 1970-01-01 of a date of the proleptic Gregorian calendar. *)
Definition days_from_civil (y m d : Z) : Z :=
  let y := if m <=? 2 then y - 1 else y in
  let era := y / 400 in
  let yoe := y - era * 400 in
  let doy := (153 * (if 2 <? m then m - 3 else m + 9) + 2) / 5 + d - 1 in
  let doe := yoe * 365 + yoe / 4 - yoe / 100 + doy in
  era * 146097 + doe - 719468.

(** Year, month and day of a day number. *)
Definition civil_from_days (z : Z) : Z * Z * Z :=
  let z := z + 719468 in
  let era := z / 146097 in
  let doe := z - era * 146097 in
  let yoe := (doe - doe / 1460 + doe / 36524 - doe / 146096) / 365 in
  let doy := doe - (365 * yoe + yoe / 4 - yoe / 100) in
  let mp := (5 * doy + 2) / 153 in
  let d := doy - (153 * mp + 2) / 5 + 1 in
  let m := if mp <? 10 then mp + 3 else mp - 9 in
  (if m <=? 2 then yoe + era * 400 + 1 else yoe + era * 400, m, d).

Definition leap_year (y : Z) : bool :=
  (y mod 4 =? 0) && (negb (y mod 100 =? 0) || (y mod 400 =? 0)).

Definition days_in_month (y m : Z) : Z :=
  if m =? 2 then (if leap_year y then 29 else 28)
  else if (m =? 4) || (m =? 6) || (m =? 9) || (m =? 11) then 30 else 31.

Definition digit (c : ascii) : option Z :=
  let n := code c in
  if ((48 <=? n) && (n <=? 57))%nat then Some (Z.of_nat n - 48) else None.

Definition num2 (a b : ascii) : option Z :=
  match digit a, digit b with
  | Some x, Some y => Some (10 * x + y)
  | _, _ => None
  end.

Definition num4 (a b c d : ascii) : option Z :=
  match num2 a b, num2 c d with
  | Some x, Some y => Some (100 * x + y)
  | _, _ => None
  end.

(** The instant, in seconds since the epoch, written
    [YYYY-MM-DDTHH:MM:SS+HH:MM] (or with [-HH:MM]); [None] on any other
    spelling and on a field out of range. *)
Definition parse_iso (s : string) : option Z :=
  match list_ascii_of_string s with
  | [y1; y2; y3; y4; m0; mo1; mo2; m1; d1; d2; t; h1; h2; c1; mi1; mi2; c2;
     s1; s2; sg; oh1; oh2; c3; om1; om2] =>
      match num4 y1 y2 y3 y4, num2 mo1 mo2, num2 d1 d2,
            num2 h1 h2, num2 mi1 mi2, num2 s1 s2,
            num2 oh1 oh2, num2 om1 om2 with
      | Some y, Some mo, Some d, Some h, Some mi, Some sec, Some oh, Some om =>
          if eqc m0 "-" && eqc m1 "-" && eqc t "T"
             && eqc c1 ":" && eqc c2 ":" && eqc c3 ":"
             && (eqc sg "+" || eqc sg "-")
             && (1 <=? y) && (1 <=? mo) && (mo <=? 12)
             && (1 <=? d) && (d <=? days_in_month y mo)
             && (h <? 24) && (mi <? 60) && (sec <? 60)
             && (oh <? 24) && (om <? 60)
          then
            let off := (oh * 3600 + om * 60) * (if eqc sg "-" then -1 else 1) in
            Some (days_from_civil y mo d * 86400 + h * 3600 + mi * 60 + sec - off)
          else None
      | _, _, _, _, _, _, _, _ => None
      end
  | _ => None
  end.

(** [datetime.fromisoformat(v)].  Every string that is no date raises
    [ValueError]; the text it carries here stands for the message of the
    interpreter, which quotes the string and words a field out of range in
    another way. *)
Definition fromisoformat `{Library} (v : json) : outcome Z :=
  match v with
  | JStr s =>
      match parse_iso s with
      | Some t => Ret t
      | None =>
          match fromisoformat_other s with
          | Some t => Ret t
          | None => Raise (ValueError ("Invalid isoformat string: " +:+ s))
          end
      end
  | _ => Raise TypeError
  end.

(** [datetime.fromisoformat(post['published']).astimezone(ZoneInfo(local_timezone))]
    as the local wall clock in seconds and the offset from UTC. *)
Definition local_datetime `{Library} (cfg : config) (post : json) : outcome (Z * Z) :=
  let? published := getitem post "published" in
  let? t := fromisoformat published in
  match zone_offset (local_timezone cfg) with
  | Some zone => Ret (t + zone t, zone t)
  | None => Raise (ZoneInfoNotFoundError (local_timezone cfg))
  end.

(** [strftime("%Y-%m-%d")]; the year is printed without padding. *)
Definition format_date (local : Z) : string :=
  let '(y, m, d) := civil_from_days (local / 86400) in
  of_Z y +:+ "-" +:+ pad2 m +:+ "-" +:+ pad2 d.

(** [strftime("%H:%M:%S")] *)
Definition format_time (local : Z) : string :=
  let sod := local mod 86400 in
  pad2 (sod / 3600) +:+ ":" +:+ pad2 (sod mod 3600 / 60) +:+ ":" +:+ pad2 (sod mod 60).

(** [strftime("%z")]: sign, hours and minutes, and the seconds when the
    offset has any. *)
Definition format_offset (off : Z) : string :=
  let a := Z.abs off in
  (if off <? 0 then "-" else "+") +:+ pad2 (a / 3600) +:+ pad2 (a mod 3600 / 60)
  +:+ (if a mod 60 =? 0 then "" else pad2 (a mod 60)).

Definition make_post_filename `{Library} (cfg : config) (post : json) : outcome string :=
  let? slug := make_post_slug cfg post in
  let? dt := local_datetime cfg post in
  let postdate := format_date (fst dt) in
  Ret (posts_dir cfg +:+ "/" +:+ postdate +:+ "-" +:+ slug +:+ ".markdown").

(** ** Front matter *)

Definition nl : string := String "010" EmptyString.

(** [posttags] of [make_front_matter]: [get_post_tags(post, False, True)]. *)
Definition front_matter_tags (post : json) : outcome (list json) :=
  get_post_tags post false true.

Definition make_front_matter `{Library} (cfg : config) (post : json) : outcome string :=
  let fm := "---" +:+ nl in
  let fm := fm +:+ "layout: " +:+ post_layout cfg +:+ nl in
  let fm := fm +:+ "published: " +:+ (if set_published cfg then "true" else "false") +:+ nl in
  let? title := make_post_title cfg post in
  let fm := fm +:+ "title: " +:+ title +:+ nl in
  let? postdate := local_datetime cfg post in
  let fm := fm +:+ "date: " +:+ format_date (fst postdate) +:+ " "
               +:+ format_time (fst postdate) +:+ " "
               +:+ format_offset (snd postdate) +:+ nl in
  let fm := fm +:+ "excerpt: " +:+ dquote +:+ "..." +:+ dquote +:+ nl in
  let? posttags := front_matter_tags post in
  let fm := fm +:+ "categories:" +:+ nl +:+ yaml_dump posttags false in
  let fm := fm +:+ "tags: " +:+ yaml_dump posttags true in
  Ret (fm +:+ "---" +:+ nl).

(** ** The world: file system and standard output

    Paths are compared as they are written.  [files] maps the path of every
    regular file to its content, [dirs] holds the paths of the directories,
    and [stdout] the lines printed so far.  The directory that holds a path
    is not consulted when the path is written: [makedirs], [copy2] and
    [open_x_write] return where the script raises because that directory is
    missing or is a regular file.  What is proved of them below holds
    whatever their outcome, or is said of a call that returned. *)

Record World : Type := mkWorld {
  files : gmap string string;
  dirs : gset string;
  stdout : list string
}.

Definition M (A : Type) : Type := World -> World * outcome A.

Definition ret {A : Type} (a : A) : M A := fun w => (w, Ret a).

Definition raise {A : Type} (e : exn) : M A := fun w => (w, Raise e).

Definition bind {A B : Type} (c : M A) (k : A -> M B) : M B :=
  fun w =>
    match c w with
    | (w', Ret a) => k a w'
    | (w', Raise e) => (w', Raise e)
    end.

Definition lift {A : Type} (o : outcome A) : M A := fun w => (w, o).

Notation "'let!' x ':=' c 'in' k" := (bind c (fun x => k))
  (at level 10, x name, c at level 100, k at level 200) : outcome_scope.

(** [print(s)] *)
Definition print (s : string) : M unit :=
  fun w => (mkWorld (files w) (dirs w) (stdout w ++ [s]), Ret tt).

(** [if debug: print(s)] *)
Definition debug_print (cfg : config) (s : string) : M unit :=
  if debug cfg then print s else ret tt.

(** [os.path.isfile(p)] *)
Definition isfile (p : string) : M bool :=
  fun w => (w, Ret (bool_decide (is_Some (files w !! p)))).

Definition exists_in (w : World) (p : string) : bool :=
  bool_decide (is_Some (files w !! p)) || bool_decide (p ∈ dirs w).

(** [os.path.exists(p)] *)
Definition path_exists (p : string) : M bool :=
  fun w => (w, Ret (exists_in w p)).

(** [os.makedirs(d)] *)
Definition makedirs (d : string) : M unit :=
  fun w =>
    if exists_in w d then (w, Raise (FileExistsError d))
    else (mkWorld (files w) ({[d]} ∪ dirs w) (stdout w), Ret tt).

(** [os.path.join(a, b)] for a relative [b]. *)
Definition path_join (a b : string) : string :=
  match a with
  | EmptyString => b
  | _ => if endswith_char "/" a then a +:+ b else a +:+ "/" +:+ b
  end.

(** [shutil.copy2(src, dst)]: into [dst] when it is a directory. *)
Definition copy2 (src dst : string) : M unit :=
  fun w =>
    let target :=
      if bool_decide (dst ∈ dirs w) then path_join dst (basename src) else dst in
    match files w !! src with
    | None => (w, Raise (FileNotFoundError src))
    | Some data =>
        if String.eqb src target then (w, Raise (SameFileError src))
        else (mkWorld (<[target := data]> (files w)) (dirs w) (stdout w), Ret tt)
    end.

(** [with open(path, "x", encoding="utf-8") as f: f.write(text)] *)
Definition open_x_write (path text : string) : M unit :=
  fun w =>
    if exists_in w path then (w, Raise (FileExistsError path))
    else (mkWorld (<[path := text]> (files w)) (dirs w) (stdout w), Ret tt).

(** ** Attachment processor *)

(** [str(v)] *)
Definition py_str `{Library} (v : json) : string :=
  match v with
  | JNull => "None"
  | JBool b => if b then "True" else "False"
  | JNum n => of_Z n
  | JStr s => s
  | _ => repr_container v
  end.

(** The [alt] attribute, added when [att['name']] is true. *)
Definition alt_attribute (att : json) : outcome string :=
  let? name := getitem att "name" in
  if truthy name then
    let? flat := str_method (replace nl " ") name in
    Ret (" alt=" +:+ dquote +:+ html_escape flat +:+ dquote)
  else Ret "".

(** The markup [entry_text] of one attachment whose file is present. *)
Definition entry_markup `{Library} (att : json) (post_media_file : string)
  : outcome string :=
  let? mediaType := getitem att "mediaType" in
  let? image := str_method (startswith "image/") mediaType in
  if image then
    let entry_text := nl +:+ "{% include figure popup=true image_path=" +:+ dquote in
    let entry_text := entry_text +:+ post_media_file +:+ dquote in
    let? alt := alt_attribute att in
    Ret (entry_text +:+ alt +:+ " %}" +:+ nl)
  else
    let? video := str_method (startswith "video/") mediaType in
    if video then
      let entry_text := nl +:+ "<video src=" +:+ dquote in
      let entry_text :=
        entry_text +:+ lstrip (eqc ".") post_media_file +:+ dquote
        +:+ " controls=" +:+ dquote +:+ "controls" +:+ dquote in
      let? alt := alt_attribute att in
      let entry_text := entry_text +:+ alt in
      let? width := getitem att "width" in
      let entry_text :=
        if truthy width
        then entry_text +:+ " style=" +:+ dquote +:+ "max-width: "
             +:+ py_str width +:+ "px;" +:+ dquote
        else entry_text in
      Ret (entry_text +:+ "></video>" +:+ nl)
    else Ret "".

(** The attachment URL with a dot in front: the path of the file inside
    the extracted archive. *)
Definition archive_media_file (att : json) : outcome string :=
  let? url := getitem att "url" in
  match url with
  | JStr u => Ret ("." +:+ u)
  | _ => Raise TypeError
  end.

(** One turn of the loop of [process_attachments]; the result is the new
    value of [att_txt]. *)
Definition process_attachment `{Library} (cfg : config) (att : json) (att_txt : string)
  : M string :=
  let! source := lift (archive_media_file att) in
  let post_media_file := attachment_dir cfg +:+ "/" +:+ basename source in
  let! present := isfile source in
  if negb present then
    let! _ := print ("Attachment file missing:  " +:+ source) in
    ret att_txt
  else
    let! entry_text := lift (entry_markup att post_media_file) in
    let att_txt := att_txt +:+ entry_text in
    let! there := path_exists (attachment_dir cfg) in
    let! _ := if negb there then makedirs (attachment_dir cfg) else ret tt in
    let! _ := copy2 source post_media_file in
    ret att_txt.

Fixpoint attachment_loop `{Library} (cfg : config) (atts : list json) (att_txt : string)
  : M string :=
  match atts with
  | [] => ret att_txt
  | att :: rest =>
      let! att_txt := process_attachment cfg att att_txt in
      attachment_loop cfg rest att_txt
  end.

Definition process_attachments `{Library} (cfg : config) (post : json) : M string :=
  let! object := lift (getitem post "object") in
  let! present := lift (py_in "attachment" object) in
  if negb present then ret ""
  else
    let! attachment := lift (getitem object "attachment") in
    match attachment with
    | JList atts => attachment_loop cfg atts ""
    | _ => ret ""
    end.

(** ** Thread reconstructor *)

(** The values a [for] loop draws from a value. *)
Definition py_iter (v : json) : outcome (list json) :=
  match v with
  | JList l => Ret l
  | JDict kvs => Ret (map (fun kv => JStr (fst kv)) kvs)
  | JStr s => Ret (map (fun c => JStr (String c EmptyString)) (list_ascii_of_string s))
  | _ => Raise TypeError
  end.

(** The guard at the head of the loop of [find_post_by_id]: the record is a
    dict whose [object] is a dict with an [id]. *)
Definition usable_with_id (apost : json) : bool :=
  match apost with
  | JDict kvs =>
      match assoc "object" kvs with
      | Some (JDict okvs) => has_key "id" okvs
      | _ => false
      end
  | _ => false
  end.

(** The ownership test shared by [find_post_by_id] and [main]:
    [apost['actor'] != my_actor or apost['object']['attributedTo'] != my_actor],
    negated. *)
Definition owned_by (cfg : config) (apost : json) : outcome bool :=
  let? actor := getitem apost "actor" in
  if negb (py_eq actor (JStr (my_actor cfg))) then Ret false
  else
    let? object := getitem apost "object" in
    let? attributedTo := getitem object "attributedTo" in
    Ret (py_eq attributedTo (JStr (my_actor cfg))).

(** The loop of [find_post_by_id] over the records of the archive. *)
Fixpoint find_loop `{Library} (cfg : config) (items : list json) (postid : json)
  : M json :=
  match items with
  | [] => ret (JDict [])
  | apost :: rest =>
      if negb (usable_with_id apost) then find_loop cfg rest postid
      else
        let! owned := lift (owned_by cfg apost) in
        if negb owned then
          let! _ := debug_print cfg "Skipping reply: Wrong actor." in
          find_loop cfg rest postid
        else
          let! object := lift (getitem apost "object") in
          let! id := lift (getitem object "id") in
          if py_eq id postid then
            let! _ := debug_print cfg ("Found reply  " +:+ py_str postid) in
            ret apost
          else find_loop cfg rest postid
  end.

Definition find_post_by_id `{Library} (cfg : config) (archive postid : json) : M json :=
  let! orderedItems := lift (getitem archive "orderedItems") in
  let! items := lift (py_iter orderedItems) in
  find_loop cfg items postid.

(** The ids in [post['object']['replies']['first']['items']] when the whole
    structure is present and well formed, and no id otherwise: the test in
    front of the reply loop of [make_post_text]. *)
Definition reply_items (post : json) : outcome (list json) :=
  let? object := getitem post "object" in
  let? present := py_in "replies" object in
  if negb present then Ret []
  else
    let? replies := getitem object "replies" in
    match replies with
    | JDict r =>
        match assoc "first" r with
        | Some (JDict f) =>
            match assoc "items" f with
            | Some (JList items) => Ret items
            | _ => Ret []
            end
        | _ => Ret []
        end
    | _ => Ret []
    end.

(** [text + "\n"]: [TypeError] unless the left operand is a string. *)
Definition add_newline (v : json) : outcome string :=
  match v with
  | JStr s => Ret (s +:+ nl)
  | _ => Raise TypeError
  end.

(** The text of one post without its replies: content, hashtag links
    removed, then the markup of its attachments. *)
Definition post_body `{Library} (cfg : config) (post : json) : M string :=
  let! object := lift (getitem post "object") in
  let! content := lift (getitem object "content") in
  let! bodytext := lift (add_newline content) in
  let bodytext := soup_prettify (keep_tag_links cfg) bodytext in
  let! att_txt := process_attachments cfg post in
  ret (if String.eqb att_txt EmptyString then bodytext
       else bodytext +:+ nl +:+ att_txt).

(** The reply loop of [make_post_text]; [self] is the recursive call. *)
Fixpoint reply_loop `{Library} (cfg : config) (self : json -> M string)
    (archive : json) (items : list json) (bodytext : string) : M string :=
  match items with
  | [] => ret bodytext
  | reply :: rest =>
      let! replypost := find_post_by_id cfg archive reply in
      if truthy replypost then
        let! _ := debug_print cfg "Processing reply!" in
        let! text := self replypost in
        reply_loop cfg self archive rest (bodytext +:+ nl +:+ text)
      else reply_loop cfg self archive rest bodytext
  end.

(** [make_post_text].  [depth] is the number of nested calls the
    interpreter still allows; a call beyond it raises [RecursionError]. *)
Fixpoint make_post_text `{Library} (depth : nat) (cfg : config) (archive post : json)
  : M string :=
  match depth with
  | O => raise RecursionError
  | S depth =>
      if negb (truthy post) then ret ""
      else
        let! bodytext := post_body cfg post in
        let! items := lift (reply_items post) in
        let! _ :=
          match items with
          | [] => ret tt
          | _ => debug_print cfg ("Seeking replies:  " +:+ of_nat (length items))
          end in
        reply_loop cfg (make_post_text depth cfg archive) archive items bodytext
  end.

(** ** Post selector *)

(** The guard at the head of the loop of [main]. *)
Definition usable (apost : json) : bool :=
  match apost with
  | JDict kvs =>
      match assoc "object" kvs with
      | Some (JDict _) => true
      | _ => false
      end
  | _ => false
  end.

(** [set(wanted_tags) & set(posttags)] is not empty. *)
Definition tags_overlap (wanted : list string) (posttags : list json) : bool :=
  existsb (fun w => existsb (py_eq (JStr w)) posttags) wanted.

Definition nonempty {A : Type} (l : list A) : bool :=
  match l with [] => false | _ => true end.

(** The checks of the loop of [main] that end in [continue]: [true] when
    the record passes them all. *)
Definition is_exportable `{Library} (cfg : config) (apost : json) : M bool :=
  if negb (usable apost) then
    let! _ := debug_print cfg "Skipping post: Object not usable." in
    ret false
  else
    let! owned := lift (owned_by cfg apost) in
    if negb owned then
      let! _ := debug_print cfg "Skipping post: Wrong actor." in
      ret false
    else
      let! object := lift (getitem apost "object") in
      let! is_reply :=
        lift (let? present := py_in "inReplyTo" object in
              if present then
                let? inReplyTo := getitem object "inReplyTo" in
                Ret (truthy inReplyTo)
              else Ret false) in
      if is_reply then
        let! _ := debug_print cfg "Skipping post: Is a reply." in
        ret false
      else
        let! posttags := lift (get_post_tags apost true false) in
        if nonempty (wanted_tags cfg) && negb (nonempty posttags) then
          let! _ := debug_print cfg "Skipping post: No tags." in
          ret false
        else if nonempty (wanted_tags cfg)
                && negb (tags_overlap (wanted_tags cfg) posttags) then
          let! _ := debug_print cfg "Skipping post: No wanted tags." in
          ret false
        else
          let! title := lift (make_post_title cfg apost) in
          if startswith "RE: " title then
            let! _ := debug_print cfg "Skipping post: Boost." in
            ret false
          else ret true.

(** ** Exporter *)

(** The exclusive write at the end of the loop of [main]; the result is
    the new value of [target_posts]. *)
Definition write_post (filename post_text : string) (apost : json)
    (target_posts : list json) : M (list json) :=
  fun w =>
    match open_x_write filename post_text w with
    | (w', Ret _) =>
        (let! object := lift (getitem apost "object") in
         let! id := lift (getitem object "id") in
         ret (target_posts ++ [id])) w'
    | (w', Raise (FileExistsError _)) =>
        (let! _ := print (filename +:+ " already exists, not overwriting.") in
         ret target_posts) w'
    | (w', Raise e) => (w', Raise e)
    end.

(** What the loop of [main] does with a record that passed the checks. *)
Definition export_post `{Library} (depth : nat) (cfg : config) (archive apost : json)
    (target_posts : list json) : M (list json) :=
  let! _ := debug_print cfg ("Found a post!" +:+ nl) in
  let! front := lift (make_front_matter cfg apost) in
  let post_text := front in
  let! thread := make_post_text depth cfg archive apost in
  let post_text := post_text +:+ nl +:+ thread in
  let! object := lift (getitem apost "object") in
  let! url := lift (getitem object "url") in
  let! link :=
    lift (match url with
          | JStr u => Ret (nl +:+ "[Imported from Mastodon](" +:+ u +:+ ")" +:+ nl +:+ nl)
          | _ => Raise TypeError
          end) in
  let post_text := post_text +:+ link in
  let! _ := debug_print cfg post_text in
  let! filename := lift (make_post_filename cfg apost) in
  let! there := path_exists (posts_dir cfg) in
  let! _ := if negb there then makedirs (posts_dir cfg) else ret tt in
  write_post filename post_text apost target_posts.

(** The loop of [main] over the records of the archive. *)
Fixpoint main_loop `{Library} (depth : nat) (cfg : config) (archive : json)
    (items : list json) (target_posts : list json) : M (list json) :=
  match items with
  | [] => ret target_posts
  | apost :: rest =>
      let! wanted := is_exportable cfg apost in
      if wanted then
        let! target_posts := export_post depth cfg archive apost target_posts in
        main_loop depth cfg archive rest target_posts
      else main_loop depth cfg archive rest target_posts
  end.

(** [str(err)] for the [ValueError] that [main] catches. *)
Definition error_text (e : exn) : option string :=
  match e with
  | ValueError msg => Some msg
  | _ => None
  end.

(** [main], run on the archive that [read_archive] returned.  The result
    is the value [main] returns: [None] after the count was printed, the
    message of a [ValueError] when one was caught.  Reading and decoding
    the archive file, which the script does inside the same [try], comes
    before what is modelled here. *)
Definition main `{Library} (depth : nat) (cfg : config) (archive : json)
  : M (option string) :=
  fun w =>
    match (let! orderedItems := lift (getitem archive "orderedItems") in
           let! items := lift (py_iter orderedItems) in
           let! target_posts := main_loop depth cfg archive items [] in
           print ("Total Posts Generated:  " +:+ of_nat (length target_posts))) w with
    | (w', Ret _) => (w', Ret None)
    | (w', Raise e) =>
        match error_text e with
        | Some msg => (w', Ret (Some msg))
        | None => (w', Raise e)
        end
    end.

(** ** Definitions used to state the properties *)

(** Every character of a string satisfies a test. *)
Fixpoint all_chars (p : ascii -> bool) (s : string) : bool :=
  match s with
  | EmptyString => true
  | String c r => p c && all_chars p r
  end.

Definition nonspace (c : ascii) : bool := negb (is_space c).

(** [make_post_title] with the test for a newline taken out of the loop:
    only a word that ends in a full stop ends the title early. *)
Fixpoint title_loop_dot (firstwords titlewords : list string) : list string :=
  match firstwords with
  | [] => titlewords
  | word :: rest =>
      let word := clean_word word in
      let titlewords := titlewords ++ [word] in
      if endswith_char "." word then titlewords
      else title_loop_dot rest titlewords
  end.

Definition title_of_content_dot `{Library} (cfg : config) (content : string) : string :=
  let firstwords := firstn (max_title_words cfg) (split (plain_text content)) in
  rstrip is_punct (join " " (title_loop_dot firstwords [])).

Definition make_post_title_dot `{Library} (cfg : config) (post : json) : outcome string :=
  let? object := getitem post "object" in
  let? content := getitem object "content" in
  str_method (title_of_content_dot cfg) content.

(** The [content] of a post, when it is a string. *)
Definition post_content (post : json) : outcome string :=
  let? object := getitem post "object" in
  let? content := getitem object "content" in
  str_method (fun s => s) content.

(** A library for the examples: no entity is decoded, the HTML is left as
    it is, a YAML sequence is written without quoting, every zone is five
    hours behind UTC. *)
Definition yaml_plain (l : list json) (flow : bool) : string :=
  let items := map (fun v => match v with JStr s => s | _ => "?" end) l in
  if flow then "[" +:+ join ", " items +:+ "]" +:+ nl
  else match items with
       | [] => "[]" +:+ nl
       | _ => String.concat "" (map (fun s => "- " +:+ s +:+ nl) items)
       end.

Definition plain_library : Library := {|
  html_charrefs s := s;
  soup_prettify _ s := s;
  yaml_dump := yaml_plain;
  zone_offset _ := Some (fun _ => -18000);
  fromisoformat_other _ := None;
  repr_container _ := "?"
|}.

(** The record of the worked example of the specification, and the same
    record with the time stamp where the script reads it. *)
Definition example_object : json :=
  JDict [("id", JStr "1"); ("attributedTo", JStr "A");
         ("content", JStr "<p>Hello world. More text</p>");
         ("published", JStr "2024-01-01T12:00:00+00:00");
         ("tag", JList [JDict [("type", JStr "Hashtag"); ("name", JStr "#cats")]])].

Definition example_activity : json :=
  JDict [("actor", JStr "A"); ("object", example_object)].

Definition example_activity_dated : json :=
  JDict [("actor", JStr "A");
         ("published", JStr "2024-01-01T12:00:00+00:00");
         ("object", example_object)].

Definition example_config : config := {|
  archive_filename := "./outbox.json";
  posts_dir := "./_posts";
  attachment_dir := "./assets/images";
  my_actor := "A";
  local_timezone := "America/Indiana/Indianapolis";
  set_published := false;
  post_layout := "single";
  max_title_words := 15;
  keep_tag_links := false;
  wanted_tags := ["#cats"];
  debug := false
|}.

Definition empty_world : World := mkWorld ∅ ∅ [].

(** The entries of [post['object']['tag']] when it is a list, and no entry
    otherwise. *)
Definition tag_entries (post : json) : list json :=
  match getitem post "object" with
  | Ret (JDict o) =>
      match assoc "tag" o with
      | Some (JList l) => l
      | _ => []
      end
  | _ => []
  end.

(** [tag['type'] == 'Hashtag'] *)
Definition is_hashtag (entry : json) : bool :=
  match getitem entry "type" with
  | Ret ty => py_eq ty (JStr "Hashtag")
  | Raise _ => false
  end.

(** The tag list as section 4.4 of the specification words it: lowercased
    and with the leading [#] removed. *)
Definition front_matter_tags_lowered (post : json) : outcome (list json) :=
  get_post_tags post true true.

(** A post of the configured author with one mixed-case hashtag. *)
Definition mixed_case_activity : json :=
  JDict [("actor", JStr "A");
         ("published", JStr "2024-01-01T12:00:00+00:00");
         ("object",
          JDict [("id", JStr "7"); ("attributedTo", JStr "A");
                 ("content", JStr "<p>Look</p>");
                 ("tag", JList [JDict [("type", JStr "Hashtag"); ("name", JStr "#Cats")]])])].

(** The configuration of the example with its wanted tag written without
    the [#]. *)
Definition bare_tag_config : config := {|
  archive_filename := "./outbox.json";
  posts_dir := "./_posts";
  attachment_dir := "./assets/images";
  my_actor := "A";
  local_timezone := "America/Indiana/Indianapolis";
  set_published := false;
  post_layout := "single";
  max_title_words := 15;
  keep_tag_links := false;
  wanted_tags := ["cats"];
  debug := false
|}.

(** An entry of [tag] that the tag extractor reads without raising: a dict
    with a [type], and with a string [name] when the type is Hashtag. *)
Definition tag_entry_ok (entry : json) : bool :=
  match getitem entry "type" with
  | Ret ty =>
      if py_eq ty (JStr "Hashtag") then
        match getitem entry "name" with
        | Ret (JStr _) => true
        | _ => false
        end
      else true
  | Raise _ => false
  end.

(** A record that holds what the selection reads, with the type it is read
    at: an [actor], and in its object an [attributedTo], a string [content]
    and tag entries that can be read. *)
Definition well_formed (apost : json) : bool :=
  match apost with
  | JDict kvs =>
      has_key "actor" kvs
      && match assoc "object" kvs with
         | Some (JDict o) =>
             has_key "attributedTo" o
             && match assoc "content" o with
                | Some (JStr _) => true
                | _ => false
                end
             && forallb tag_entry_ok
                  (match assoc "tag" o with Some (JList l) => l | _ => [] end)
         | _ => false
         end
  | _ => false
  end.

(** A record with an object and no [actor], and an archive that holds it
    in front of the record of the example. *)
Definition actorless_activity : json :=
  JDict [("object", JDict [("id", JStr "0"); ("attributedTo", JStr "A")])].

Definition actorless_archive : json :=
  JDict [("orderedItems", JList [actorless_activity; example_activity_dated])].

(** The front matter of [mixed_case_activity] under [plain_library]. *)
Definition mixed_case_front_matter : string :=
  Eval vm_compute in
    match @make_front_matter plain_library example_config mixed_case_activity with
    | Ret fm => fm
    | Raise _ => EmptyString
    end.

(** The world after some lines were printed. *)
Definition say (w : World) (out : list string) : World :=
  mkWorld (files w) (dirs w) (stdout w ++ out).


Definition present_attachment : json :=
  JDict [("url", JStr "/media/cat.png"); ("mediaType", JStr "image/png");
         ("name", JStr "cat")].

Definition media_world : World :=
  mkWorld {[ "./media/cat.png" := "PNG" ]} ∅ [].

(** A specification of a computation: from a world that satisfies [P],
    a result [a] comes with a world that satisfies [Q a], and an exception
    [e] with a world that satisfies [E e]. *)
Definition triple {A : Type} (P : World -> Prop) (c : M A)
    (Q : A -> World -> Prop) (E : exn -> World -> Prop) : Prop :=
  forall w w' r, P w -> c w = (w', r) ->
    match r with
    | Ret a => Q a w'
    | Raise e => E e w'
    end.

(** The computation keeps the invariant [I], whatever its outcome. *)
Definition keeps {A : Type} (I : World -> Prop) (c : M A) : Prop :=
  triple I c (fun _ => I) (fun _ => I).

(** The records of the archive, as the loops of [main] and of
    [find_post_by_id] draw them. *)
Definition archive_items (archive : json) : list json :=
  match (let? orderedItems := getitem archive "orderedItems" in py_iter orderedItems) with
  | Ret items => items
  | Raise _ => []
  end.

(** [apost['object']['id']] *)
Definition post_id (apost : json) : outcome json :=
  let? object := getitem apost "object" in getitem object "id".

(** The record is owned by the configured identity: its [actor] and the
    [attributedTo] of its object are both that string. *)
Definition is_owned (cfg : config) (apost : json) : Prop :=
  exists object,
    getitem apost "actor" = Ret (JStr (my_actor cfg)) /\
    getitem apost "object" = Ret object /\
    getitem object "attributedTo" = Ret (JStr (my_actor cfg)).

(** [body] is the text that [make_post_text] makes of the post alone. *)
Definition rendered `{Library} (cfg : config) (pb : json * string) : Prop :=
  exists w w', post_body cfg (fst pb) w = (w', Ret (snd pb)).

(** The bodies of the replies as they are added to the text of a thread:
    each one after a newline. *)
Fixpoint tail_join (bodies : list string) : string :=
  match bodies with
  | [] => EmptyString
  | b :: bs => nl +:+ b +:+ tail_join bs
  end.

(** A thread of the configured author "A" with two declared replies: one
    by the author, one by somebody else. *)
Definition thread_root : json :=
  JDict [("actor", JStr "A");
         ("object",
          JDict [("id", JStr "1"); ("attributedTo", JStr "A");
                 ("content", JStr "<p>root</p>");
                 ("replies",
                  JDict [("first", JDict [("items", JList [JStr "9"; JStr "2"])])])])].

Definition foreign_reply : json :=
  JDict [("actor", JStr "B");
         ("object",
          JDict [("id", JStr "9"); ("attributedTo", JStr "B");
                 ("content", JStr "<p>injected</p>"); ("inReplyTo", JStr "1")])].

Definition thread_reply : json :=
  JDict [("actor", JStr "A");
         ("object",
          JDict [("id", JStr "2"); ("attributedTo", JStr "A");
                 ("content", JStr "<p>reply</p>"); ("inReplyTo", JStr "1")])].

Definition thread_archive : json :=
  JDict [("orderedItems", JList [thread_root; foreign_reply; thread_reply])].

(** The reply graph of an archive: an edge goes from a post to every post
    that [find_post_by_id] resolves one of its reply ids to. *)
Definition reply_edge `{Library} (cfg : config) (archive : json) (p q : json) : Prop :=
  exists items id w w',
    reply_items p = Ret items /\ In id items /\
    find_post_by_id cfg archive id w = (w', Ret q) /\ truthy q = true.

(** No post is reached from itself along reply edges. *)
Definition acyclic `{Library} (cfg : config) (archive : json) : Prop :=
  forall p, ~ clos_trans json (reply_edge cfg archive) p p.

(** A pure step that does not raise [RecursionError]. *)
Definition quiet {A : Type} (o : outcome A) : Prop :=
  forall e, o = Raise e -> e <> RecursionError.

(** A computation that does not raise [RecursionError]. *)
Definition calm {A : Type} (c : M A) : Prop :=
  forall w w' e, c w = (w', Raise e) -> e <> RecursionError.

(** A post that declares itself as its own reply. *)
Definition self_reply : json :=
  JDict [("actor", JStr "A");
         ("object",
          JDict [("id", JStr "1"); ("attributedTo", JStr "A");
                 ("content", JStr "<p>again</p>");
                 ("replies",
                  JDict [("first", JDict [("items", JList [JStr "1"])])])])].

Definition self_reply_archive : json :=
  JDict [("orderedItems", JList [self_reply])].

(** Every path that exists in [w0] exists in [w]. *)
Definition extends (w0 w : World) : Prop :=
  forall p, exists_in w0 p = true -> exists_in w p = true.

(** The path lies below the directory. *)
Definition under (dir p : string) : bool := startswith (dir +:+ "/") p.


(** Outside the attachment directory the files of [w'] are those of [w]. *)
Definition same_outside_attachments (cfg : config) (w w' : World) : Prop :=
  forall p, under (attachment_dir cfg) p = false -> files w' !! p = files w !! p.


(** The computation only prints: its result and the lines it prints are
    the same in every world. *)
Definition talks {A : Type} (c : M A) : Prop :=
  exists out r, forall w, c w = (say w out, r).

(** An archive of one post with one attachment, and the world of an
    extracted archive that holds the file of the attachment. *)
Definition illustrated_activity : json :=
  JDict [("actor", JStr "A");
         ("published", JStr "2024-01-01T12:00:00+00:00");
         ("object",
          JDict [("id", JStr "1"); ("attributedTo", JStr "A");
                 ("url", JStr "https://mastodon.example.com/@a/1");
                 ("content", JStr "<p>Hello world. More text</p>");
                 ("tag", JList [JDict [("type", JStr "Hashtag"); ("name", JStr "#cats")]]);
                 ("attachment", JList [present_attachment])])].

Definition illustrated_archive : json :=
  JDict [("orderedItems", JList [illustrated_activity])].


(** A reply that was inlined: an owned record of the archive. *)
Definition reply_ok (cfg : config) (archive : json) (pb : json * string) : Prop :=
  is_owned cfg (fst pb) /\ In (fst pb) (archive_items archive).

(** What a call of [make_post_text] returns on a post that is not empty:
    the body of the post, then the bodies of inlined replies, joined by
    newlines. *)
Definition thread_text `{Library} (cfg : config) (archive post : json) (text : string)
  : Prop :=
  exists body replies,
    rendered cfg (post, body) /\
    text = join nl (body :: map snd replies) /\
    Forall (rendered cfg) replies /\
    Forall (reply_ok cfg archive) replies.












(** ** Definitions used to state further properties *)

(** A character that the cleaning of the title words removes is none of
    these: colon, double quote, single quote. *)
Definition title_char_ok (c : ascii) : bool :=
  negb (eqc c ":") && negb (eqc c "034") && negb (eqc c "'").

(** An ASCII capital letter. *)
Definition is_upper (c : ascii) : bool :=
  let n := code c in ((65 <=? n) && (n <=? 90))%nat.

(** A character that a slug can hold: no whitespace, no capital letter,
    and of the punctuation only the hyphen. *)
Definition slug_char_ok (c : ascii) : bool :=
  negb (is_space c) && (negb (is_punct c) || eqc c "-") && negb (is_upper c).

(** A record whose content starts the way the notice of a boost does. *)
Definition boost_like_activity : json :=
  JDict [("actor", JStr "A");
         ("published", JStr "2024-01-01T12:00:00+00:00");
         ("object",
          JDict [("id", JStr "5"); ("attributedTo", JStr "A");
                 ("content", JStr "<p>RE: Someone's post, it's great!</p>");
                 ("tag", JList [JDict [("type", JStr "Hashtag"); ("name", JStr "#cats")]])])].

(** What [get_post_tags] makes of the name of a Hashtag entry under its two
    flags. *)
Definition tag_text (lowercase removeoctothorpe : bool) (name : string) : string :=
  let name := if lowercase then lower name else name in
  if removeoctothorpe then lstrip (eqc "#") name else name.

(** The tag [t] comes from the entry: from its name by [tag_text] when the
    name is a string; a name that is no string is handed on as it is, which
    only happens with both flags off. *)
Definition tag_of_entry (lowercase removeoctothorpe : bool) (entry t : json) : Prop :=
  exists name,
    getitem entry "name" = Ret name /\
    match name with
    | JStr s => t = JStr (tag_text lowercase removeoctothorpe s)
    | _ => lowercase = false /\ removeoctothorpe = false /\ t = name
    end.

(** A post with three tag entries: a mention between two hashtags. *)
Definition tagged_activity : json :=
  JDict [("actor", JStr "A");
         ("object",
          JDict [("id", JStr "3"); ("attributedTo", JStr "A");
                 ("content", JStr "<p>Tags</p>");
                 ("tag",
                  JList [JDict [("type", JStr "Hashtag"); ("name", JStr "##Cats")];
                         JDict [("type", JStr "Mention"); ("name", JStr "@friend")];
                         JDict [("type", JStr "Hashtag"); ("name", JStr "#Dogs")]])])].

(** The record starts a thread: its object has no [inReplyTo], or an
    empty one. *)
Definition is_root (apost : json) : Prop :=
  forall object v,
    getitem apost "object" = Ret object ->
    getitem object "inReplyTo" = Ret v -> truthy v = false.

(** The loop of [find_post_by_id] passes over the record when it looks for
    [postid]: the record is not usable, or it is not owned, or it is owned
    and has another id. *)
Definition passed_over (cfg : config) (postid a : json) : Prop :=
  usable_with_id a = false \/
  owned_by cfg a = Ret false \/
  (owned_by cfg a = Ret true /\
   exists id, post_id a = Ret id /\ py_eq id postid = false).

(** The records of the archive, when [orderedItems] can be read. *)
Definition read_items (archive : json) : outcome (list json) :=
  let? orderedItems := getitem archive "orderedItems" in py_iter orderedItems.

(** The two worlds have the same files and directories. *)
Definition same_disk (w w' : World) : Prop :=
  files w' = files w /\ dirs w' = dirs w.

(** A character that may stand inside a quoted attribute of the markup. *)
Definition attr_char_ok (c : ascii) : bool :=
  negb (eqc c "034") && negb (eqc c "<") && negb (eqc c ">")
  && negb (eqc c "'") && negb (eqc c "010").


Definition hostile_alt_attachment : json :=
  JDict [("url", JStr "/media/cat.png"); ("mediaType", JStr "image/png");
         ("name", JStr "<b>'cat'</b>")].

(** The world of an extracted archive in a site whose output directories
    are there already. *)
Definition site_world : World :=
  mkWorld {[ "./media/cat.png" := "PNG" ]}
          {[ "."; "./media"; "./_posts"; "./assets"; "./assets/images" ]} [].

(** [find_post_by_id] resolves the id to the record [q] (the empty dict
    when no record matches). *)
Definition resolves `{Library} (cfg : config) (archive id q : json) : Prop :=
  exists w w', find_post_by_id cfg archive id w = (w', Ret q).

(** A thread whose replies are listed against the order of the archive:
    the root lists reply 3 before reply 2, the archive holds reply 2
    before reply 3. *)
Definition listed_root : json :=
  JDict [("actor", JStr "A");
         ("object",
          JDict [("id", JStr "1"); ("attributedTo", JStr "A");
                 ("content", JStr "<p>root</p>");
                 ("replies",
                  JDict [("first", JDict [("items", JList [JStr "3"; JStr "2"])])])])].

Definition listed_second : json :=
  JDict [("actor", JStr "A");
         ("object",
          JDict [("id", JStr "2"); ("attributedTo", JStr "A");
                 ("content", JStr "<p>second</p>"); ("inReplyTo", JStr "1")])].

Definition listed_third : json :=
  JDict [("actor", JStr "A");
         ("object",
          JDict [("id", JStr "3"); ("attributedTo", JStr "A");
                 ("content", JStr "<p>third</p>"); ("inReplyTo", JStr "1")])].

Definition listed_archive : json :=
  JDict [("orderedItems", JList [listed_root; listed_second; listed_third])].

(** [markup] is what the attachment loop adds to the text for [att] when
    the loop starts in [w]: the markup of the attachment, or nothing for an
    attachment whose file is not in [w]. *)
Definition markup_of `{Library} (cfg : config) (w : World) (att : json) (markup : string)
  : Prop :=
  exists source,
    archive_media_file att = Ret source /\
    (entry_markup att (attachment_dir cfg +:+ "/" +:+ basename source) = Ret markup \/
     (files w !! source = None /\ markup = EmptyString)).

(** The strings one after the other. *)
Fixpoint glued (parts : list string) : string :=
  match parts with
  | [] => EmptyString
  | p :: ps => p +:+ glued ps
  end.

(** No file of [w0] is missing from [w]. *)
Definition keeps_files (w0 w : World) : Prop :=
  forall p, files w !! p = None -> files w0 !! p = None.

(** A second selected record, one day after [illustrated_activity]. *)
Definition later_activity : json :=
  JDict [("actor", JStr "A");
         ("published", JStr "2024-01-02T12:00:00+00:00");
         ("object",
          JDict [("id", JStr "7"); ("attributedTo", JStr "A");
                 ("url", JStr "https://mastodon.example.com/@a/7");
                 ("content", JStr "<p>Another day</p>");
                 ("tag", JList [JDict [("type", JStr "Hashtag"); ("name", JStr "#cats")]])])].

(** * Properties *)

(** ** Facts about strings *)

Section StringFacts.

Lemma append_nil_l (t : string) : "" +:+ t = t.
Proof. reflexivity. Qed.

Lemma append_cons c (s t : string) : String c s +:+ t = String c (s +:+ t).
Proof. reflexivity. Qed.

Lemma all_chars_app p s t :
  all_chars p (s +:+ t) = all_chars p s && all_chars p t.
Proof.
  induction s as [|c s IH]; [reflexivity|].
  rewrite append_cons. simpl. now rewrite IH, andb_assoc.
Qed.

Lemma split_nonspace s : Forall (fun w => all_chars nonspace w = true) (split s).
Proof.
  induction s as [|c s IH]; simpl; [constructor|].
  destruct (is_space c) eqn:Hc; [exact IH|].
  assert (Hn : nonspace c = true) by (unfold nonspace; now rewrite Hc).
  destruct (starts_word s).
  - destruct (split s) as [|w ws].
    + constructor; [simpl; now rewrite Hn | constructor].
    + inversion IH; subst. constructor; [simpl; now rewrite Hn | assumption].
  - constructor; [simpl; now rewrite Hn | exact IH].
Qed.

Lemma replace_from_all_chars p old s :
  all_chars p s = true -> forall k, all_chars p (replace_from k old "" s) = true.
Proof.
  induction s as [|c s IH]; intros Hs k; [reflexivity|].
  simpl in Hs. apply andb_true_iff in Hs as [Hc Hs].
  cbn [replace_from]. destruct k as [|k]; [|now apply IH].
  destruct (startswith old (String c s)).
  - cbn. now apply IH.
  - cbn. rewrite Hc. now apply IH.
Qed.

Lemma intersperse_empty s : intersperse "" s = s.
Proof. induction s as [|c s IH]; simpl; [reflexivity | now rewrite IH]. Qed.

Lemma replace_all_chars p old s :
  all_chars p s = true -> all_chars p (replace old "" s) = true.
Proof.
  intros Hs. destruct old; simpl.
  - now rewrite intersperse_empty.
  - now apply replace_from_all_chars.
Qed.

Lemma clean_word_all_chars p w :
  all_chars p w = true -> all_chars p (clean_word w) = true.
Proof.
  intros Hw. unfold clean_word. now do 3 apply replace_all_chars.
Qed.

Lemma endswith_char_all_chars p c s :
  endswith_char c s = true -> all_chars p s = true -> p c = true.
Proof.
  induction s as [|a s IH]; simpl; [discriminate|].
  intros He Ha. apply andb_true_iff in Ha as [Ha Hs].
  destruct s as [|b s].
  - unfold eqc in He. apply Ascii.eqb_eq in He. now subst.
  - now apply IH.
Qed.

Lemma nonspace_no_newline w :
  all_chars nonspace w = true -> endswith_char "010" w = false.
Proof.
  intros Hw. destruct (endswith_char "010" w) eqn:He; [|reflexivity].
  now pose proof (endswith_char_all_chars _ _ _ He Hw).
Qed.

Lemma split_word w :
  all_chars nonspace w = true ->
  split w = match w with EmptyString => [] | _ => [w] end.
Proof.
  induction w as [|c w IH]; [reflexivity|].
  simpl. intros Hw. apply andb_true_iff in Hw as [Hc Hw].
  unfold nonspace in Hc. apply negb_true_iff in Hc. rewrite Hc.
  rewrite (IH Hw). destruct w as [|c' w]; [reflexivity|].
  simpl in Hw. apply andb_true_iff in Hw as [Hc' _].
  simpl. unfold nonspace in Hc'. now rewrite Hc'.
Qed.

Lemma split_word_space w r :
  all_chars nonspace w = true ->
  split (w +:+ String " " r)
  = match w with EmptyString => [] | _ => [w] end ++ split r.
Proof.
  induction w as [|c w IH]; [reflexivity|].
  simpl. intros Hw. apply andb_true_iff in Hw as [Hc Hw].
  unfold nonspace in Hc. apply negb_true_iff in Hc. rewrite Hc.
  rewrite (IH Hw). destruct w as [|c' w]; [reflexivity|].
  simpl in Hw. apply andb_true_iff in Hw as [Hc' _].
  simpl. unfold nonspace in Hc'. now rewrite Hc'.
Qed.

Lemma split_join_length ws :
  Forall (fun w => all_chars nonspace w = true) ws ->
  (length (split (join " " ws)) <= length ws)%nat.
Proof.
  induction 1 as [|w ws Hw Hws IH]; [simpl; lia|].
  destruct ws as [|w' ws].
  - simpl. rewrite (split_word _ Hw). destruct w; simpl; lia.
  - change (join " " (w :: w' :: ws)) with (w +:+ String " " (join " " (w' :: ws))).
    rewrite (split_word_space _ _ Hw), length_app.
    destruct w; simpl in *; lia.
Qed.

Lemma split_prefix_length s t :
  (length (split s) <= length (split (s +:+ t)))%nat.
Proof.
  induction s as [|c s IH]; [simpl; lia|].
  rewrite append_cons. simpl. destruct (is_space c); [exact IH|].
  destruct s as [|c' s].
  - rewrite append_nil_l. simpl.
    destruct (starts_word t); [destruct (split t)|]; simpl; lia.
  - rewrite append_cons in *.
    cbn [starts_word]. destruct (negb (is_space c')).
    + destruct (split (String c' s)), (split (String c' (s +:+ t)));
        simpl in *; lia.
    + simpl in *; lia.
Qed.

Lemma rstrip_prefix p s : exists t, s = rstrip p s +:+ t.
Proof.
  induction s as [|c s [t Ht]]; [now exists EmptyString|].
  simpl. destruct (rstrip p s) as [|c' r'] eqn:Hr.
  - destruct (p c).
    + now exists (String c s).
    + exists t. rewrite append_cons. now f_equal.
  - exists t. rewrite append_cons. now f_equal.
Qed.

Lemma split_rstrip_length p s :
  (length (split (rstrip p s)) <= length (split s))%nat.
Proof.
  destruct (rstrip_prefix p s) as [t Ht].
  rewrite Ht at 2. apply split_prefix_length.
Qed.

End StringFacts.

(** ** Title derivation *)

Section Title.

Context `{L : Library}.

Lemma title_loop_dot_eq ws :
  Forall (fun w => all_chars nonspace w = true) ws ->
  forall acc, title_loop_dot ws acc = title_loop ws acc.
Proof.
  induction 1 as [|w ws Hw _ IH]; intros acc; [reflexivity|].
  simpl. unfold stops.
  rewrite (nonspace_no_newline (clean_word w)), orb_false_r
    by now apply clean_word_all_chars.
  destruct (endswith_char "." (clean_word w)); [reflexivity | apply IH].
Qed.

Lemma title_loop_spec ws : forall acc,
  exists kept rest,
    ws = kept ++ rest /\
    title_loop ws acc = acc ++ map clean_word kept /\
    Forall (fun w => stops (clean_word w) = false) (removelast kept) /\
    (rest <> [] -> exists w, last kept = Some w /\ stops (clean_word w) = true).
Proof.
  induction ws as [|w ws IH]; intros acc.
  - exists [], []. simpl. rewrite app_nil_r. repeat split; [constructor | congruence].
  - simpl. destruct (stops (clean_word w)) eqn:Hs.
    + exists [w], ws. repeat split; [constructor | eauto].
    + destruct (IH (acc ++ [clean_word w])) as (kept & rest & -> & Hl & Hf & Hr).
      exists (w :: kept), rest. repeat split.
      * rewrite Hl, <- app_assoc. reflexivity.
      * destruct kept as [|k kept]; [constructor|].
        change (removelast (w :: k :: kept)) with (w :: removelast (k :: kept)).
        now constructor.
      * intros Hne. destruct (Hr Hne) as (x & Hx & Hsx).
        exists x. split; [|assumption].
        destruct kept; [discriminate | exact Hx].
Qed.

Lemma title_tokens_bound cfg content :
  (length (split (title_of_content cfg content)) <= max_title_words cfg)%nat.
Proof.
  unfold title_of_content.
  set (ws := firstn (max_title_words cfg) (split (plain_text content))).
  assert (Hws : Forall (fun w => all_chars nonspace w = true) ws)
    by (apply Forall_take, split_nonspace).
  destruct (title_loop_spec ws []) as (kept & rest & Hk & -> & _ & _).
  simpl. etransitivity; [apply split_rstrip_length|].
  etransitivity; [apply split_join_length|].
  - rewrite Hk in Hws. apply Forall_app in Hws as [Hkept _].
    apply Forall_map. eapply Forall_impl; [exact Hkept|].
    intros w Hw. now apply clean_word_all_chars.
  - rewrite length_map.
    assert (length ws <= max_title_words cfg)%nat by (unfold ws; apply firstn_le_length).
    rewrite Hk, length_app in H. lia.
Qed.

Lemma make_post_title_inv cfg post title :
  make_post_title cfg post = Ret title ->
  exists content,
    post_content post = Ret content /\ title = title_of_content cfg content.
Proof.
  unfold make_post_title, post_content.
  destruct (getitem post "object") as [object|]; [|discriminate]. simpl.
  destruct (getitem object "content") as [content|]; [|discriminate]. simpl.
  destruct content; try discriminate. simpl.
  intros [= <-]. eauto.
Qed.

(** C9.  The newline test of the title loop never fires: the words come
    from [split], which leaves no whitespace inside a word, so the title is
    the one computed by the loop that stops only on a full stop. *)
Theorem newline_stop_unreachable cfg post :
  make_post_title_dot cfg post = make_post_title cfg post.
Proof.
  unfold make_post_title_dot, make_post_title.
  destruct (getitem post "object") as [object|]; [|reflexivity]. simpl.
  destruct (getitem object "content") as [content|]; [|reflexivity]. simpl.
  destruct content; try reflexivity. simpl.
  unfold title_of_content_dot, title_of_content.
  rewrite title_loop_dot_eq; [reflexivity|].
  apply Forall_take, split_nonspace.
Qed.

(** C7.  A derived title has at most [max_title_words] whitespace
    delimited tokens, and it is made of the cleaned words up to and
    including the first one that ends in a full stop or a newline: no word
    kept before the last one stops the loop, and when words were left
    out, the last word kept is one that stops it. *)
Theorem title_word_bound_and_early_stop cfg post title :
  make_post_title cfg post = Ret title ->
  (length (split title) <= max_title_words cfg)%nat /\
  exists content kept rest,
    post_content post = Ret content /\
    firstn (max_title_words cfg) (split (plain_text content)) = kept ++ rest /\
    title = rstrip is_punct (join " " (map clean_word kept)) /\
    Forall (fun w => stops (clean_word w) = false) (removelast kept) /\
    (rest <> [] -> exists w, last kept = Some w /\ stops (clean_word w) = true).
Proof.
  intros Ht. destruct (make_post_title_inv _ _ _ Ht) as (content & Hc & ->).
  split; [apply title_tokens_bound|].
  destruct (title_loop_spec (firstn (max_title_words cfg) (split (plain_text content))) [])
    as (kept & rest & Hk & Hl & Hf & Hr).
  exists content, kept, rest. repeat split; try assumption.
  unfold title_of_content. now rewrite Hl.
Qed.

End Title.

(** The title of the worked example: two words are kept, the second one
    stops the loop, and the full stop is stripped at the end. *)
Lemma title_word_bound_and_early_stop_witness :
  @make_post_title plain_library example_config example_activity = Ret "Hello world" /\
  (length (split "Hello world") <= 15)%nat.
Proof.
  split; [reflexivity|].
  exact (proj1 (@title_word_bound_and_early_stop plain_library example_config
                  example_activity "Hello world" eq_refl)).
Defined.

(** ** The worked example *)

Lemma example_title_any_library `{L : Library} :
  make_post_title example_config example_activity = Ret "Hello world".
Proof. reflexivity. Qed.

Lemma noon_local_date (z : Z) :
  -43200 <= z < 43200 -> format_date (1704110400 + z) = "2024-01-01".
Proof.
  intros Hz. unfold format_date.
  replace ((1704110400 + z) / 86400) with 19723; [reflexivity|].
  apply Z.div_unique with (r := 43200 + z); lia.
Qed.

(** C2, as the code has it.  The record of the example passes the
    selection, its title is [Hello world] (the full stop is stripped with
    the trailing punctuation), and when the record itself carries the
    [published] stamp, which is where the script reads it, the file name is
    [./_posts/2024-01-01-hello-world.markdown] in every zone less than
    twelve hours away from UTC at that instant. *)
Theorem example_accepted_title_and_filename `{L : Library} :
  (forall w, is_exportable example_config example_activity w = (w, Ret true)) /\
  make_post_title example_config example_activity = Ret "Hello world" /\
  (forall zone,
     zone_offset (local_timezone example_config) = Some zone ->
     -43200 <= zone 1704110400 < 43200 ->
     make_post_filename example_config example_activity_dated
     = Ret "./_posts/2024-01-01-hello-world.markdown").
Proof.
  split; [reflexivity|]. split; [reflexivity|].
  intros zone Hzone Hoff.
  unfold make_post_filename, local_datetime.
  change (make_post_slug example_config example_activity_dated) with (Ret "hello-world").
  cbn [obind].
  change (getitem example_activity_dated "published")
    with (Ret (JStr "2024-01-01T12:00:00+00:00")).
  cbn [obind].
  change (fromisoformat (JStr "2024-01-01T12:00:00+00:00")) with (Ret 1704110400).
  cbn [obind]. rewrite Hzone. cbn [obind fst].
  rewrite (noon_local_date _ Hoff). reflexivity.
Qed.

Lemma example_accepted_title_and_filename_witness :
  @make_post_filename plain_library example_config example_activity_dated
  = Ret "./_posts/2024-01-01-hello-world.markdown".
Proof.
  apply (proj2 (proj2 (@example_accepted_title_and_filename plain_library))
           (fun _ => -18000)); [reflexivity | lia].
Defined.

(** The example as the specification states it fails twice: the title has
    no full stop at its end, and the record has no [published] key of its
    own, so the file name cannot be derived. *)
Lemma example_title_and_filename_differ :
  @make_post_title plain_library example_config example_activity <> Ret "Hello world." /\
  @make_post_filename plain_library example_config example_activity
  = Raise (KeyError "published").
Proof. split; [discriminate | reflexivity]. Qed.

(** ** Front matter *)

Lemma append_assoc (a b c : string) : (a +:+ b) +:+ c = a +:+ b +:+ c.
Proof.
  induction a as [|x a IH]; [reflexivity|].
  rewrite !append_cons. now rewrite IH.
Qed.

Lemma tag_loop_keep_case entries : forall acc tags,
  tag_loop false true entries acc = Ret tags ->
  exists new,
    tags = acc ++ new /\
    Forall2 (fun entry t =>
               exists name, getitem entry "name" = Ret (JStr name) /\
                            t = JStr (lstrip (eqc "#") name))
            (List.filter is_hashtag entries) new.
Proof.
  induction entries as [|entry entries IH]; intros acc tags.
  - simpl. intros [= <-]. exists []. rewrite app_nil_r. split; [reflexivity | constructor].
  - cbn [tag_loop List.filter]. unfold is_hashtag.
    destruct (getitem entry "type") as [ty|]; [|discriminate]. cbn [obind].
    destruct (py_eq ty (JStr "Hashtag")); [|apply IH].
    destruct (getitem entry "name") as [name|] eqn:Hname; [|discriminate].
    cbn [obind]. destruct name; try discriminate. cbn [str_method obind].
    intros Hrest. destruct (IH _ _ Hrest) as (new & -> & Hnew).
    eexists (_ :: new). rewrite <- app_assoc. split; [reflexivity|].
    constructor; [eauto | exact Hnew].
Qed.

Lemma front_matter_tags_spec post tags :
  front_matter_tags post = Ret tags ->
  Forall2 (fun entry t =>
             exists name, getitem entry "name" = Ret (JStr name) /\
                          t = JStr (lstrip (eqc "#") name))
          (List.filter is_hashtag (tag_entries post)) tags.
Proof.
  unfold front_matter_tags, get_post_tags, tag_entries.
  destruct (getitem post "object") as [object|]; [|discriminate]. cbn [obind].
  destruct object as [| | | | |kvs]; try discriminate;
    try (cbn [py_in obind]; destruct (negb _); cbn;
         [intros [= <-]; constructor | discriminate]).
  cbn [py_in obind getitem]. unfold has_key.
  destruct (assoc "tag" kvs) as [tag|]; cbn [negb obind];
    [|intros [= <-]; constructor].
  destruct tag; try (intros [= <-]; constructor).
  intros Hl. destruct (tag_loop_keep_case _ _ _ Hl) as (new & -> & Hnew).
  exact Hnew.
Qed.

(** C3, as the code has it.  The front matter ends with the tag list
    written twice, as a block sequence under [categories] and as a flow
    sequence under [tags]; both are the same list, which holds the names of
    the Hashtag entries in their order, each with its leading [#]
    characters removed and its letters as they were. *)
Theorem front_matter_lists_tags_twice `{L : Library} cfg post fm :
  make_front_matter cfg post = Ret fm ->
  exists head tags,
    fm = head +:+ "categories:" +:+ nl +:+ yaml_dump tags false
              +:+ "tags: " +:+ yaml_dump tags true +:+ "---" +:+ nl /\
    front_matter_tags post = Ret tags /\
    Forall2 (fun entry t =>
               exists name, getitem entry "name" = Ret (JStr name) /\
                            t = JStr (lstrip (eqc "#") name))
            (List.filter is_hashtag (tag_entries post)) tags.
Proof.
  unfold make_front_matter.
  destruct (make_post_title cfg post) as [title|]; [|discriminate]. cbn [obind].
  destruct (local_datetime cfg post) as [postdate|]; [|discriminate]. cbn [obind].
  destruct (front_matter_tags post) as [tags|] eqn:Htags; [|discriminate]. cbn [obind].
  intros Hfm. injection Hfm as <-.
  match goal with
  | |- context [ (?h +:+ "categories:" +:+ nl +:+ _) +:+ _ ] => exists h, tags
  end.
  split; [|split; [reflexivity|]].
  - rewrite !append_assoc. reflexivity.
  - now apply front_matter_tags_spec.
Qed.

Lemma front_matter_lists_tags_twice_witness :
  exists head tags,
    mixed_case_front_matter
    = head +:+ "categories:" +:+ nl +:+ yaml_plain tags false
           +:+ "tags: " +:+ yaml_plain tags true +:+ "---" +:+ nl /\
    front_matter_tags mixed_case_activity = Ret tags.
Proof.
  destruct (@front_matter_lists_tags_twice plain_library example_config
              mixed_case_activity mixed_case_front_matter)
    as (head & tags & Hfm & Htags & _); [vm_compute; reflexivity|].
  now exists head, tags.
Defined.

(** The tag [#Cats] reaches the front matter as [Cats], not lowercased. *)
Lemma front_matter_tags_keep_case :
  front_matter_tags mixed_case_activity = Ret [JStr "Cats"] /\
  front_matter_tags_lowered mixed_case_activity = Ret [JStr "cats"] /\
  front_matter_tags mixed_case_activity <> front_matter_tags_lowered mixed_case_activity.
Proof. split; [reflexivity|]. split; [reflexivity|]. discriminate. Qed.

(** ** Post selector *)

Section Selector.

Context `{L : Library}.

Lemma debug_print_run cfg s w :
  exists w', debug_print cfg s w = (w', Ret tt)
             /\ files w' = files w /\ dirs w' = dirs w.
Proof.
  unfold debug_print. destruct (debug cfg); eexists; (split; [reflexivity|]); split; reflexivity.
Qed.

Lemma reject_run cfg s w :
  exists w', (let! _ := debug_print cfg s in ret false) w = (w', Ret false)
             /\ files w' = files w /\ dirs w' = dirs w.
Proof.
  destruct (debug_print_run cfg s w) as (w' & Hd & Hf & Hdirs).
  exists w'. unfold bind. rewrite Hd. auto.
Qed.

Lemma tags_overlap_nil wanted : tags_overlap wanted [] = false.
Proof. induction wanted as [|x wanted IH]; [reflexivity | exact IH]. Qed.

Lemma owned_by_true_inv cfg apost :
  owned_by cfg apost = Ret true ->
  exists kvs o, apost = JDict kvs /\ assoc "object" kvs = Some (JDict o).
Proof.
  unfold owned_by. destruct apost as [| | | | |kvs]; try discriminate.
  destruct (getitem (JDict kvs) "actor") as [actor|]; [|discriminate]. cbn [obind].
  destruct (negb _); [discriminate|]. cbn [getitem].
  destruct (assoc "object" kvs) as [object|] eqn:Hobj; [|discriminate].
  cbn [obind]. destruct object; try discriminate. intros _. eauto.
Qed.

(** C5, as the code has it.  A record owned by the configured identity,
    whose [inReplyTo] is absent or empty, whose Hashtag names, lowercased
    and with their [#] left in place, meet the wanted tags, and whose
    title does not start with [RE: ], passes the selection. *)
Theorem owned_tagged_root_is_accepted cfg apost tags title :
  owned_by cfg apost = Ret true ->
  (forall object v,
     getitem apost "object" = Ret object ->
     getitem object "inReplyTo" = Ret v -> truthy v = false) ->
  get_post_tags apost true false = Ret tags ->
  tags_overlap (wanted_tags cfg) tags = true ->
  make_post_title cfg apost = Ret title ->
  startswith "RE: " title = false ->
  forall w, is_exportable cfg apost w = (w, Ret true).
Proof.
  intros Hown Hroot Htags Hover Htitle Hre w.
  destruct (owned_by_true_inv _ _ Hown) as (kvs & o & -> & Hobj).
  unfold is_exportable, usable. rewrite Hobj. cbn [negb].
  unfold bind at 1, lift at 1. rewrite Hown. cbn [negb].
  unfold bind at 1, lift at 1. cbn [getitem]. rewrite Hobj.
  unfold bind at 1, lift at 1. cbn [py_in obind]. unfold has_key.
  assert (Hreply :
    (if match assoc "inReplyTo" o with Some _ => true | None => false end
     then let? inReplyTo := getitem (JDict o) "inReplyTo" in Ret (truthy inReplyTo)
     else Ret false) = Ret false).
  { cbn [getitem]. destruct (assoc "inReplyTo" o) as [v|] eqn:Hv; [|reflexivity].
    cbn [obind]. f_equal. apply (Hroot (JDict o) v).
    - cbn [getitem]. now rewrite Hobj.
    - cbn [getitem]. now rewrite Hv. }
  rewrite Hreply.
  unfold bind at 1, lift at 1. rewrite Htags.
  assert (Hne : nonempty tags = true).
  { destruct tags; [|reflexivity]. now rewrite tags_overlap_nil in Hover. }
  rewrite Hne, Hover, !andb_false_r.
  unfold bind at 1, lift at 1. rewrite Htitle, Hre. reflexivity.
Qed.

Lemma tag_loop_total lc ro entries :
  forallb tag_entry_ok entries = true ->
  forall acc, exists tags, tag_loop lc ro entries acc = Ret tags.
Proof.
  induction entries as [|entry entries IH]; intros Hok acc; [now eexists|].
  cbn [forallb] in Hok. apply andb_true_iff in Hok as [Hentry Hok].
  cbn [tag_loop]. unfold tag_entry_ok in Hentry.
  destruct (getitem entry "type") as [ty|]; [|discriminate]. cbn [obind].
  destruct (py_eq ty (JStr "Hashtag")); [|now apply IH].
  destruct (getitem entry "name") as [name|]; [|discriminate].
  destruct name; try discriminate. cbn [obind].
  destruct lc, ro; cbn [str_method obind]; now apply IH.
Qed.

Lemma well_formed_inv apost :
  well_formed apost = true ->
  exists kvs o actor attributedTo content,
    apost = JDict kvs /\ assoc "actor" kvs = Some actor /\
    assoc "object" kvs = Some (JDict o) /\
    assoc "attributedTo" o = Some attributedTo /\
    assoc "content" o = Some (JStr content) /\
    forallb tag_entry_ok (match assoc "tag" o with Some (JList l) => l | _ => [] end)
    = true.
Proof.
  unfold well_formed, has_key. destruct apost as [| | | | |kvs]; try discriminate.
  destruct (assoc "actor" kvs) as [actor|] eqn:Hactor; [|discriminate].
  destruct (assoc "object" kvs) as [object|] eqn:Hobj; [|discriminate].
  destruct object as [| | | | |o]; try discriminate.
  destruct (assoc "attributedTo" o) as [a|] eqn:Hatt; [|discriminate].
  destruct (assoc "content" o) as [content|] eqn:Hcontent; [|discriminate].
  destruct content; try discriminate. cbn [andb].
  intros Hok. eexists _, _, _, _, _. split; [reflexivity|]. eauto 6.
Qed.

Lemma well_formed_tags apost lc ro :
  well_formed apost = true -> exists tags, get_post_tags apost lc ro = Ret tags.
Proof.
  intros Hwf. destruct (well_formed_inv _ Hwf)
    as (kvs & o & _ & _ & _ & -> & _ & Hobj & _ & _ & Htags).
  unfold get_post_tags. cbn [getitem]. rewrite Hobj. cbn [obind py_in getitem].
  unfold has_key. destruct (assoc "tag" o) as [tag|]; cbn [negb obind]; [|now eexists].
  destruct tag; try (now eexists). now apply tag_loop_total.
Qed.

Lemma well_formed_title cfg apost :
  well_formed apost = true -> exists title, make_post_title cfg apost = Ret title.
Proof.
  intros Hwf. destruct (well_formed_inv _ Hwf)
    as (kvs & o & _ & _ & content & -> & _ & Hobj & _ & Hcontent & _).
  unfold make_post_title. cbn [getitem]. rewrite Hobj. cbn [obind getitem].
  rewrite Hcontent. now eexists.
Qed.

Lemma well_formed_owned cfg apost :
  well_formed apost = true -> exists b, owned_by cfg apost = Ret b.
Proof.
  intros Hwf. destruct (well_formed_inv _ Hwf)
    as (kvs & o & actor & att & _ & -> & Hactor & Hobj & Hatt & _ & _).
  unfold owned_by. cbn [getitem]. rewrite Hactor. cbn [obind].
  destruct (negb _); [now eexists|]. rewrite Hobj. cbn [obind getitem].
  rewrite Hatt. now eexists.
Qed.

Lemma reply_test_total o :
  exists b,
    (let? present := py_in "inReplyTo" (JDict o) in
     if present then
       let? inReplyTo := getitem (JDict o) "inReplyTo" in Ret (truthy inReplyTo)
     else Ret false) = Ret b.
Proof.
  cbn [py_in obind getitem]. unfold has_key.
  destruct (assoc "inReplyTo" o); now eexists.
Qed.

(** The selection on a record that holds what it reads. *)
Lemma well_formed_selection cfg apost w :
  well_formed apost = true ->
  exists b w',
    is_exportable cfg apost w = (w', Ret b) /\
    files w' = files w /\ dirs w' = dirs w.
Proof.
  intros Hwf.
  destruct (well_formed_owned cfg _ Hwf) as (owned & Howned).
  destruct (well_formed_tags _ true false Hwf) as (tags & Htags).
  destruct (well_formed_title cfg _ Hwf) as (title & Htitle).
  destruct (well_formed_inv _ Hwf) as (kvs & o & _ & _ & _ & -> & _ & Hobj & _).
  destruct (reply_test_total o) as (is_reply & Hreply).
  unfold is_exportable, usable. rewrite Hobj. cbn [negb].
  unfold bind at 1, lift at 1. rewrite Howned.
  destruct owned; cbn [negb];
    [|destruct (reject_run cfg "Skipping post: Wrong actor." w) as (w' & -> & ? & ?);
      now exists false, w'].
  unfold bind at 1, lift at 1. cbn [getitem]. rewrite Hobj.
  unfold bind at 1, lift at 1. rewrite Hreply.
  destruct is_reply;
    [destruct (reject_run cfg "Skipping post: Is a reply." w) as (w' & -> & ? & ?);
     now exists false, w'|].
  unfold bind at 1, lift at 1. rewrite Htags.
  destruct (nonempty (wanted_tags cfg) && negb (nonempty tags));
    [destruct (reject_run cfg "Skipping post: No tags." w) as (w' & -> & ? & ?);
     now exists false, w'|].
  destruct (nonempty (wanted_tags cfg) && negb (tags_overlap (wanted_tags cfg) tags));
    [destruct (reject_run cfg "Skipping post: No wanted tags." w) as (w' & -> & ? & ?);
     now exists false, w'|].
  unfold bind at 1, lift at 1. rewrite Htitle.
  destruct (startswith "RE: " title);
    [destruct (reject_run cfg "Skipping post: Boost." w) as (w' & -> & ? & ?);
     now exists false, w'|].
  now exists true, w.
Qed.

(** C4, as the code has it.  The selection raises nothing on a record that
    is unusable (not a dict, without an object, or with an object that is
    not a dict) and nothing on a record that holds the fields the selection
    reads; it answers yes or no, touches no file, rejects the unusable
    record, and after a rejection the loop goes on with the next record. *)
Theorem selection_total_on_readable_records depth cfg archive apost w :
  usable apost = false \/ well_formed apost = true ->
  exists b w',
    is_exportable cfg apost w = (w', Ret b) /\
    files w' = files w /\ dirs w' = dirs w /\
    (usable apost = false -> b = false) /\
    (b = false ->
     forall rest target_posts,
       main_loop depth cfg archive (apost :: rest) target_posts w
       = main_loop depth cfg archive rest target_posts w').
Proof.
  intros Hshape.
  assert (Hrun : exists b w',
             is_exportable cfg apost w = (w', Ret b) /\
             files w' = files w /\ dirs w' = dirs w /\
             (usable apost = false -> b = false)).
  { destruct (usable apost) eqn:Hus.
    - destruct Hshape as [|Hwf]; [discriminate|].
      destruct (well_formed_selection cfg _ w Hwf) as (b & w' & Hrun & Hf & Hd).
      exists b, w'. repeat split; [assumption .. | discriminate].
    - unfold is_exportable. rewrite Hus. cbn [negb].
      destruct (reject_run cfg "Skipping post: Object not usable." w) as (w' & -> & ? & ?).
      exists false, w'. auto. }
  destruct Hrun as (b & w' & Hrun & Hf & Hd & Hb).
  exists b, w'. repeat split; try assumption.
  intros -> rest tp. cbn [main_loop]. unfold bind at 1. now rewrite Hrun.
Qed.

End Selector.

Lemma selection_total_on_readable_records_witness :
  exists b,
    @is_exportable plain_library example_config example_activity empty_world
    = (empty_world, Ret b).
Proof.
  destruct (@selection_total_on_readable_records plain_library 10 example_config
              actorless_archive example_activity empty_world (or_intror eq_refl))
    as (b & w' & Hrun & _).
  exists b. rewrite Hrun. f_equal.
  change (@is_exportable plain_library example_config example_activity empty_world)
    with (empty_world, @Ret bool true) in Hrun.
  now injection Hrun as <- _.
Defined.

(** A record without an [actor] makes the selection raise [KeyError], and
    the run ends there: the record behind it is not looked at. *)
Lemma actorless_record_aborts_the_run :
  @is_exportable plain_library example_config actorless_activity empty_world
  = (empty_world, Raise (KeyError "actor")) /\
  @main plain_library 10 example_config actorless_archive empty_world
  = (empty_world, Raise (KeyError "actor")).
Proof. split; reflexivity. Qed.

(** Under the comparison the specification names, the tag [#cats] of the
    example meets the wanted tag [cats]; the selection compares the
    lowercased name with its [#] and rejects the record. *)
Lemma bare_wanted_tag_is_rejected :
  owned_by bare_tag_config example_activity = Ret true /\
  get_post_tags example_activity true true = Ret [JStr "cats"] /\
  tags_overlap (wanted_tags bare_tag_config) [JStr "cats"] = true /\
  @make_post_title plain_library bare_tag_config example_activity = Ret "Hello world" /\
  @is_exportable plain_library bare_tag_config example_activity empty_world
  = (empty_world, Ret false).
Proof. repeat split. Qed.

Lemma owned_tagged_root_is_accepted_witness :
  @is_exportable plain_library example_config example_activity empty_world
  = (empty_world, Ret true).
Proof.
  apply (@owned_tagged_root_is_accepted plain_library example_config example_activity
           [JStr "#cats"] "Hello world"); try reflexivity.
  intros object v [= <-]. discriminate.
Defined.


(** ** Attachment processor *)

Section Attachments.

Context `{L : Library}.




End Attachments.


(** ** Reasoning about computations in [M] *)

Section Triples.

Context {A B : Type}.

Lemma bind_inv (c : M A) (k : A -> M B) w w' r :
  bind c k w = (w', r) ->
  (exists e, c w = (w', Raise e) /\ r = Raise e) \/
  (exists a w1, c w = (w1, Ret a) /\ k a w1 = (w', r)).
Proof.
  unfold bind. destruct (c w) as [w1 [a|e]].
  - intros Hk. right. eauto.
  - intros [= <- <-]. left. eauto.
Qed.

Lemma bind_ret_inv (c : M A) (k : A -> M B) w w' b :
  bind c k w = (w', Ret b) ->
  exists a w1, c w = (w1, Ret a) /\ k a w1 = (w', Ret b).
Proof.
  intros Hb. apply bind_inv in Hb as [(e & _ & [=]) | Hb]. exact Hb.
Qed.

Lemma lift_inv (o : outcome A) w w' r : lift o w = (w', r) -> w' = w /\ r = o.
Proof. unfold lift. now intros [= <- <-]. Qed.

Lemma triple_bind P (c : M A) (k : A -> M B) Q1 Q E :
  triple P c Q1 E -> (forall a, triple (Q1 a) (k a) Q E) ->
  triple P (bind c k) Q E.
Proof.
  intros Hc Hk w w' r HP Hb.
  apply bind_inv in Hb as [(e & Hcw & ->) | (a & w1 & Hcw & Hka)].
  - exact (Hc _ _ _ HP Hcw).
  - exact (Hk a _ _ _ (Hc _ _ _ HP Hcw) Hka).
Qed.

Lemma triple_weaken (P P' : World -> Prop) (c : M A) (Q Q' : A -> World -> Prop)
    (E E' : exn -> World -> Prop) :
  triple P c Q E ->
  (forall w, P' w -> P w) -> (forall a w, Q a w -> Q' a w) ->
  (forall e w, E e w -> E' e w) ->
  triple P' c Q' E'.
Proof.
  intros Hc HP HQ HE w w' r HP' Hcw.
  specialize (Hc _ _ _ (HP _ HP') Hcw). destruct r; auto.
Qed.

Lemma triple_lift P (o : outcome A) :
  triple P (lift o) (fun a w => P w /\ o = Ret a) (fun e w => P w /\ o = Raise e).
Proof. intros w w' r HP Hl. apply lift_inv in Hl as [-> ->]. destruct o; auto. Qed.

Lemma keeps_bind I (c : M A) (k : A -> M B) :
  keeps I c -> (forall a, keeps I (k a)) -> keeps I (bind c k).
Proof. intros Hc Hk. eapply triple_bind; [exact Hc | exact Hk]. Qed.

Lemma keeps_ret I (a : A) : keeps I (ret a).
Proof. intros w w' r HI [= <- <-]. exact HI. Qed.

Lemma keeps_raise I e : keeps I (@raise A e).
Proof. intros w w' r HI [= <- <-]. exact HI. Qed.

Lemma keeps_lift I (o : outcome A) : keeps I (lift o).
Proof. intros w w' r HI [= <- <-]. destruct o; exact HI. Qed.

End Triples.

Lemma keeps_isfile I p : keeps I (isfile p).
Proof. intros w w' r HI [= <- <-]. exact HI. Qed.

Lemma keeps_path_exists I p : keeps I (path_exists p).
Proof. intros w w' r HI [= <- <-]. exact HI. Qed.

Lemma say_nil w : say w [] = w.
Proof. destruct w. unfold say. cbn. now rewrite app_nil_r. Qed.

Lemma say_say w a b : say (say w a) b = say w (a ++ b).
Proof. unfold say. cbn. now rewrite app_assoc. Qed.

(** ** Reply resolution *)

Section Replies.

Context `{L : Library}.

Lemma debug_print_inv cfg s w w' r :
  debug_print cfg s w = (w', r) -> r = Ret tt.
Proof. unfold debug_print. destruct (debug cfg); now intros [= <- <-]. Qed.

Lemma find_loop_owned cfg items postid : forall w w' p,
  find_loop cfg items postid w = (w', Ret p) ->
  truthy p = true ->
  In p items /\ owned_by cfg p = Ret true /\
  exists id, post_id p = Ret id /\ py_eq id postid = true.
Proof.
  induction items as [|apost rest IH]; intros w w' p.
  - intros [= <- <-]. discriminate.
  - cbn [find_loop]. intros Hrun Hp.
    assert (Hrest : forall w1, find_loop cfg rest postid w1 = (w', Ret p) ->
              In p (apost :: rest) /\ owned_by cfg p = Ret true /\
              exists id, post_id p = Ret id /\ py_eq id postid = true).
    { intros w1 H1. destruct (IH _ _ _ H1 Hp) as (Hin & Hrem). split; [now right | exact Hrem]. }
    destruct (negb (usable_with_id apost)); [now apply (Hrest w)|].
    apply bind_ret_inv in Hrun as (owned & w1 & Hown & Hrun).
    apply lift_inv in Hown as [-> Hown].
    destruct owned; cbn [negb] in Hrun.
    + apply bind_ret_inv in Hrun as (object & w1 & Hobj & Hrun).
      apply lift_inv in Hobj as [-> Hobj].
      apply bind_ret_inv in Hrun as (id & w1 & Hid & Hrun).
      apply lift_inv in Hid as [-> Hid].
      destruct (py_eq id postid) eqn:Heq; [|now apply (Hrest w)].
      apply bind_ret_inv in Hrun as (u & w1 & _ & Hrun).
      injection Hrun as _ <-.
      split; [now left|]. split; [now symmetry|].
      exists id. split; [|exact Heq].
      unfold post_id. rewrite <- Hobj. cbn [obind]. now symmetry.
    + apply bind_ret_inv in Hrun as (u & w1 & _ & Hrun). now apply (Hrest w1).
Qed.

Lemma find_post_by_id_owned cfg archive postid w w' p :
  find_post_by_id cfg archive postid w = (w', Ret p) ->
  truthy p = true ->
  In p (archive_items archive) /\ owned_by cfg p = Ret true /\
  exists id, post_id p = Ret id /\ py_eq id postid = true.
Proof.
  unfold find_post_by_id, archive_items. intros Hrun Hp.
  apply bind_ret_inv in Hrun as (orderedItems & w1 & Ho & Hrun).
  apply lift_inv in Ho as [-> Ho].
  apply bind_ret_inv in Hrun as (items & w1 & Hi & Hrun).
  apply lift_inv in Hi as [-> Hi].
  rewrite <- Ho. cbn [obind]. rewrite <- Hi.
  exact (find_loop_owned _ _ _ _ _ _ Hrun Hp).
Qed.

End Replies.

Lemma py_eq_str v s : py_eq v (JStr s) = true -> v = JStr s.
Proof.
  destruct v; cbn; try discriminate. intros H. apply String.eqb_eq in H. now subst.
Qed.

Lemma owned_by_is_owned cfg apost : owned_by cfg apost = Ret true -> is_owned cfg apost.
Proof.
  unfold owned_by, is_owned.
  destruct (getitem apost "actor") as [actor|]; [|discriminate]. cbn [obind].
  destruct (py_eq actor (JStr (my_actor cfg))) eqn:Hactor; [|discriminate]. cbn [negb].
  destruct (getitem apost "object") as [object|]; [|discriminate]. cbn [obind].
  destruct (getitem object "attributedTo") as [att|] eqn:Hatt; [|discriminate].
  cbn [obind]. intros [= Heq]. exists object.
  apply py_eq_str in Hactor as ->. apply py_eq_str in Heq as ->. auto.
Qed.

Lemma append_nil_r (s : string) : s +:+ "" = s.
Proof. induction s as [|c s IH]; [reflexivity|]. rewrite append_cons. now rewrite IH. Qed.

Lemma join_tail_join b bs : join nl (b :: bs) = b +:+ tail_join bs.
Proof.
  revert b. induction bs as [|b' bs IH]; intros b.
  - cbn. now rewrite append_nil_r.
  - change (join nl (b :: b' :: bs)) with (b +:+ nl +:+ join nl (b' :: bs)).
    now rewrite IH.
Qed.

Lemma tail_join_app l1 l2 : tail_join (l1 ++ l2) = tail_join l1 +:+ tail_join l2.
Proof.
  induction l1 as [|b l1 IH]; [reflexivity|].
  cbn [tail_join app]. now rewrite IH, !append_assoc.
Qed.

Section Threads.

Context `{L : Library}.

Lemma reply_loop_thread cfg archive (self : json -> M string) items :
  (forall q w w' t, self q w = (w', Ret t) -> truthy q = true ->
                    thread_text cfg archive q t) ->
  forall bodytext w w' text,
    reply_loop cfg self archive items bodytext w = (w', Ret text) ->
    exists replies,
      text = bodytext +:+ tail_join (map snd replies) /\
      Forall (rendered cfg) replies /\
      Forall (reply_ok cfg archive) replies.
Proof.
  intros Hself. induction items as [|reply rest IH]; intros bodytext w w' text.
  - intros [= <- <-]. exists []. cbn. now rewrite append_nil_r.
  - cbn [reply_loop]. intros Hrun.
    apply bind_ret_inv in Hrun as (q & w1 & Hfind & Hrun).
    destruct (truthy q) eqn:Hq; [|now apply (IH _ _ _ _ Hrun)].
    apply bind_ret_inv in Hrun as (u & w2 & _ & Hrun).
    apply bind_ret_inv in Hrun as (t & w3 & Ht & Hrun).
    destruct (find_post_by_id_owned _ _ _ _ _ _ Hfind Hq) as (Hin & Hown & _).
    destruct (Hself _ _ _ _ Ht Hq) as (body & sub & Hbody & -> & Hsub & Hsubok).
    destruct (IH _ _ _ _ Hrun) as (more & -> & Hmore & Hmoreok).
    exists ((q, body) :: sub ++ more). split; [|split].
    + rewrite join_tail_join. cbn [map snd tail_join].
      rewrite map_app, tail_join_app, !append_assoc. reflexivity.
    + constructor; [exact Hbody | now apply Forall_app].
    + constructor; [|now apply Forall_app].
      split; [now apply owned_by_is_owned | exact Hin].
Qed.

Lemma make_post_text_thread cfg archive depth : forall post w w' text,
  make_post_text depth cfg archive post w = (w', Ret text) ->
  truthy post = true ->
  thread_text cfg archive post text.
Proof.
  induction depth as [|depth IH]; intros post w w' text; [discriminate|].
  cbn [make_post_text]. intros Hrun Hpost. rewrite Hpost in Hrun. cbn [negb] in Hrun.
  apply bind_ret_inv in Hrun as (body & w1 & Hbody & Hrun).
  apply bind_ret_inv in Hrun as (items & w2 & _ & Hrun).
  apply bind_ret_inv in Hrun as (u & w3 & _ & Hrun).
  destruct (reply_loop_thread cfg archive _ items IH _ _ _ _ Hrun)
    as (replies & -> & Hr & Hok).
  exists body, replies. split; [now exists w, w1|].
  split; [now rewrite join_tail_join|]. now split.
Qed.

(** C1.  Reply resolution returns only owned records of the archive:
    when [find_post_by_id] returns a post (a value that is not empty), the
    actor of that record and the [attributedTo] of its object are both the
    configured identity, the record is one of the archive, and it has the
    id that was asked for.  So the text of a thread is the body of its
    first post followed by the bodies of owned records of the archive
    only: a reply that fails the ownership test is never inlined. *)
Theorem reply_resolution_is_owned cfg archive :
  (forall postid w w' p,
     find_post_by_id cfg archive postid w = (w', Ret p) ->
     truthy p = true ->
     is_owned cfg p /\ In p (archive_items archive) /\
     exists id, post_id p = Ret id /\ py_eq id postid = true) /\
  (forall depth post w w' text,
     make_post_text depth cfg archive post w = (w', Ret text) ->
     truthy post = true ->
     exists body replies,
       rendered cfg (post, body) /\
       text = join nl (body :: map snd replies) /\
       Forall (rendered cfg) replies /\
       Forall (fun pb => is_owned cfg (fst pb) /\ In (fst pb) (archive_items archive))
              replies).
Proof.
  split.
  - intros postid w w' p Hrun Hp.
    destruct (find_post_by_id_owned _ _ _ _ _ _ Hrun Hp) as (Hin & Hown & Hid).
    split; [now apply owned_by_is_owned | now split].
  - intros depth post w w' text Hrun Hpost.
    exact (make_post_text_thread _ _ _ _ _ _ _ Hrun Hpost).
Qed.

End Threads.

(** The id of the author's reply resolves to an owned record. *)
Lemma reply_resolution_is_owned_witness :
  @find_post_by_id plain_library example_config thread_archive (JStr "2") empty_world
  = (empty_world, Ret thread_reply) /\
  is_owned example_config thread_reply.
Proof.
  split; [reflexivity|].
  exact (proj1 (proj1 (@reply_resolution_is_owned plain_library example_config
                         thread_archive)
                  (JStr "2") empty_world empty_world thread_reply eq_refl eq_refl)).
Defined.

(** The id of the other author's post, though it is declared as a reply,
    resolves to nothing, and the thread holds the author's reply only. *)
Example foreign_reply_is_not_inlined :
  @find_post_by_id plain_library example_config thread_archive (JStr "9") empty_world
  = (empty_world, Ret (JDict [])) /\
  @make_post_text plain_library 5 example_config thread_archive thread_root empty_world
  = (empty_world, Ret ("<p>root</p>" +:+ nl +:+ nl +:+ "<p>reply</p>" +:+ nl)).
Proof. split; reflexivity. Qed.

(** ** Termination of the thread reconstructor *)

Section Quiet.

Context {A B : Type}.

Lemma quiet_ret (a : A) : quiet (Ret a).
Proof. intros e [=]. Qed.

Lemma quiet_obind (c : outcome A) (k : A -> outcome B) :
  quiet c -> (forall a, quiet (k a)) -> quiet (obind c k).
Proof.
  intros Hc Hk e. destruct c as [a|e']; cbn [obind].
  - apply Hk.
  - intros [= <-]. now apply Hc.
Qed.

Lemma quiet_str_method (f : string -> A) v : quiet (str_method f v).
Proof. intros e. destruct v; cbn; congruence. Qed.

Lemma calm_ret (a : A) : calm (ret a).
Proof. intros w w' e [=]. Qed.

Lemma calm_lift (o : outcome A) : quiet o -> calm (lift o).
Proof. intros Ho w w' e [= <- Heq]. now apply Ho. Qed.

Lemma calm_bind (c : M A) (k : A -> M B) :
  calm c -> (forall a, calm (k a)) -> calm (bind c k).
Proof.
  intros Hc Hk w w' e Hb.
  apply bind_inv in Hb as [(e' & Hcw & [= <-]) | (a & w1 & _ & Hka)].
  - exact (Hc _ _ _ Hcw).
  - exact (Hk _ _ _ _ Hka).
Qed.

End Quiet.

Lemma quiet_getitem v k : quiet (getitem v k).
Proof. intros e. destruct v; cbn; try congruence. destruct (assoc k kvs); congruence. Qed.

Lemma quiet_py_in k v : quiet (py_in k v).
Proof. intros e. destruct v; cbn; congruence. Qed.

Lemma quiet_py_iter v : quiet (py_iter v).
Proof. intros e. destruct v; cbn; congruence. Qed.

Lemma quiet_add_newline v : quiet (add_newline v).
Proof. intros e. destruct v; cbn; congruence. Qed.

Ltac quiet_step :=
  first
    [ apply quiet_ret
    | apply quiet_getitem
    | apply quiet_py_in
    | apply quiet_py_iter
    | apply quiet_add_newline
    | apply quiet_str_method
    | apply quiet_obind; [|intros ?]
    | match goal with
      | |- quiet (if ?b then _ else _) => destruct b
      | |- quiet (match ?x with _ => _ end) => destruct x
      | |- quiet (Raise _) => let e := fresh in intros e [= <-]; discriminate
      end ].

Lemma quiet_archive_media_file att : quiet (archive_media_file att).
Proof. unfold archive_media_file. repeat quiet_step. Qed.

Lemma quiet_alt_attribute att : quiet (alt_attribute att).
Proof. unfold alt_attribute. repeat quiet_step. Qed.

Lemma quiet_entry_markup `{L : Library} att f : quiet (entry_markup att f).
Proof.
  unfold entry_markup.
  repeat first [apply quiet_alt_attribute | quiet_step].
Qed.

Lemma quiet_owned_by cfg apost : quiet (owned_by cfg apost).
Proof. unfold owned_by. repeat quiet_step. Qed.

Lemma quiet_reply_items post : quiet (reply_items post).
Proof. unfold reply_items. repeat quiet_step. Qed.

Lemma calm_print s : calm (print s).
Proof. intros w w' e [=]. Qed.

Lemma calm_debug_print cfg s : calm (debug_print cfg s).
Proof. unfold debug_print. destruct (debug cfg); [apply calm_print | apply calm_ret]. Qed.

Lemma calm_isfile p : calm (isfile p).
Proof. intros w w' e [=]. Qed.

Lemma calm_path_exists p : calm (path_exists p).
Proof. intros w w' e [=]. Qed.

Lemma calm_makedirs d : calm (makedirs d).
Proof.
  intros w w' e. unfold makedirs. destruct (exists_in w d); intros [= <- <-]. discriminate.
Qed.

Lemma calm_copy2 src dst : calm (copy2 src dst).
Proof.
  intros w w' e. unfold copy2. destruct (files w !! src); [|intros [= <- <-]; discriminate].
  destruct (String.eqb _ _); intros [= <- <-]. discriminate.
Qed.

Ltac calm_step :=
  first
    [ apply calm_ret
    | apply calm_print
    | apply calm_debug_print
    | apply calm_isfile
    | apply calm_path_exists
    | apply calm_makedirs
    | apply calm_copy2
    | apply calm_bind; [|intros ?]
    | match goal with
      | |- calm (if ?b then _ else _) => destruct b
      | |- calm (match ?x with _ => _ end) => destruct x
      end ].

Section Termination.

Context `{L : Library}.

Lemma calm_process_attachment cfg att att_txt : calm (process_attachment cfg att att_txt).
Proof.
  unfold process_attachment.
  repeat first
    [ calm_step
    | apply calm_lift; first [apply quiet_archive_media_file | apply quiet_entry_markup] ].
Qed.

Lemma calm_attachment_loop cfg atts : forall att_txt, calm (attachment_loop cfg atts att_txt).
Proof.
  induction atts as [|att atts IH]; intros att_txt; cbn [attachment_loop].
  - apply calm_ret.
  - apply calm_bind; [apply calm_process_attachment | intros t; apply IH].
Qed.

Lemma calm_process_attachments cfg post : calm (process_attachments cfg post).
Proof.
  unfold process_attachments.
  repeat first
    [ apply calm_attachment_loop
    | calm_step
    | apply calm_lift; first [apply quiet_getitem | apply quiet_py_in] ].
Qed.

Lemma calm_post_body cfg post : calm (post_body cfg post).
Proof.
  unfold post_body.
  repeat first
    [ apply calm_process_attachments
    | calm_step
    | apply calm_lift; first [apply quiet_getitem | apply quiet_add_newline] ].
Qed.

Lemma calm_find_loop cfg items postid : calm (find_loop cfg items postid).
Proof.
  induction items as [|apost rest IH]; cbn [find_loop]; [apply calm_ret|].
  repeat first
    [ exact IH
    | calm_step
    | apply calm_lift; first [apply quiet_getitem | apply quiet_owned_by] ].
Qed.

Lemma calm_find_post_by_id cfg archive postid : calm (find_post_by_id cfg archive postid).
Proof.
  unfold find_post_by_id.
  repeat first
    [ apply calm_find_loop
    | calm_step
    | apply calm_lift; first [apply quiet_getitem | apply quiet_py_iter] ].
Qed.

Lemma calm_reply_loop cfg archive (self : json -> M string) items :
  (forall id q w w',
     In id items -> find_post_by_id cfg archive id w = (w', Ret q) ->
     truthy q = true -> calm (self q)) ->
  forall bodytext, calm (reply_loop cfg self archive items bodytext).
Proof.
  induction items as [|reply rest IH]; intros Hself bodytext; cbn [reply_loop].
  - apply calm_ret.
  - assert (Hrest : forall b, calm (reply_loop cfg self archive rest b)).
    { apply IH. intros id q w w' Hin. apply Hself. now right. }
    intros w w' e Hrun.
    apply bind_inv in Hrun as [(e' & Hfind & [= <-]) | (q & w1 & Hfind & Hrun)].
    + exact (calm_find_post_by_id _ _ _ _ _ _ Hfind).
    + destruct (truthy q) eqn:Hq; [|exact (Hrest _ _ _ _ Hrun)].
      revert Hrun. apply calm_bind; [apply calm_debug_print | intros _].
      apply calm_bind; [|intros t; apply Hrest].
      apply (Hself reply q w w1); [now left | exact Hfind | exact Hq].
Qed.

End Termination.

Section Acyclic.

Context `{L : Library}.
Variables (cfg : config) (archive : json).
Hypothesis no_cycle : acyclic cfg archive.

Lemma reply_target_in_archive p q :
  reply_edge cfg archive p q -> In q (archive_items archive).
Proof.
  intros (items & id & w & w' & _ & _ & Hfind & Hq).
  now destruct (find_post_by_id_owned _ _ _ _ _ _ Hfind Hq).
Qed.

(** A call on a record of the archive is calm when the depth left covers
    the records that are not yet on the chain of calls. *)
Lemma calm_below depth : forall post above,
  List.NoDup (post :: above) ->
  incl (post :: above) (archive_items archive) ->
  (forall a, In a above -> clos_trans json (reply_edge cfg archive) a post) ->
  (length (archive_items archive) <= depth + length above)%nat ->
  calm (make_post_text depth cfg archive post).
Proof.
  induction depth as [|depth IH]; intros post above Hnd Hincl Hpath Hlen.
  - pose proof (NoDup_incl_length Hnd Hincl) as Hle. cbn [length] in Hle. lia.
  - cbn [make_post_text]. destruct (negb (truthy post)); [apply calm_ret|].
    apply calm_bind; [apply calm_post_body | intros bodytext].
    intros w w' e Hrun.
    apply bind_inv in Hrun as [(e' & Hitems & [= <-]) | (items & w1 & Hitems & Hrun)].
    { apply lift_inv in Hitems as [_ Hitems]. now apply (quiet_reply_items post). }
    apply lift_inv in Hitems as [-> Hitems].
    revert Hrun. apply calm_bind.
    { destruct items; [apply calm_ret | apply calm_debug_print]. }
    intros _. apply calm_reply_loop.
    intros id q w2 w3 Hin Hfind Hq.
    assert (Hedge : reply_edge cfg archive post q) by (now exists items, id, w2, w3).
    apply (IH q (post :: above)).
    + constructor; [|exact Hnd].
      intros [<- | Hq_above].
      * apply (no_cycle post). now apply t_step.
      * apply (no_cycle q). eapply t_trans; [apply (Hpath _ Hq_above) | now apply t_step].
    + intros x [<- | Hx]; [exact (reply_target_in_archive _ _ Hedge) | now apply Hincl].
    + intros a [<- | Ha]; [now apply t_step|].
      eapply t_trans; [apply (Hpath _ Ha) | now apply t_step].
    + cbn [length]. lia.
Qed.

Lemma calm_from_any_post depth post :
  (length (archive_items archive) < depth)%nat ->
  calm (make_post_text depth cfg archive post).
Proof.
  destruct depth as [|depth]; [lia|]. intros Hlen.
  cbn [make_post_text]. destruct (negb (truthy post)); [apply calm_ret|].
  apply calm_bind; [apply calm_post_body | intros bodytext].
  apply calm_bind; [apply calm_lift, quiet_reply_items | intros items].
  apply calm_bind.
  { destruct items; [apply calm_ret | apply calm_debug_print]. }
  intros _. apply calm_reply_loop.
  intros id q w2 w3 Hin Hfind Hq.
  destruct (find_post_by_id_owned _ _ _ _ _ _ Hfind Hq) as (Hq_in & _).
  apply (calm_below depth q []).
  - constructor; [intros [] | constructor].
  - intros x [<- | []]. exact Hq_in.
  - intros a [].
  - cbn [length]. lia.
Qed.

End Acyclic.

Section Depth.

Context `{L : Library}.

Lemma bind_same_head {A B : Type} (c : M A) (k k' : A -> M B) w w' r :
  bind c k w = (w', r) ->
  (forall a w1, c w = (w1, Ret a) -> k a w1 = (w', r) -> k' a w1 = (w', r)) ->
  bind c k' w = (w', r).
Proof.
  unfold bind. destruct (c w) as [w1 [a|e]]; [|trivial].
  intros Hk Hkk. now apply Hkk.
Qed.

Lemma bind_deeper {A B : Type} (c c' : M A) (k k' : A -> M B) w w' r :
  bind c k w = (w', r) ->
  r <> Raise RecursionError ->
  (forall w1 r1, c w = (w1, r1) -> r1 <> Raise RecursionError -> c' w = (w1, r1)) ->
  (forall a w1, k a w1 = (w', r) -> k' a w1 = (w', r)) ->
  bind c' k' w = (w', r).
Proof.
  unfold bind. destruct (c w) as [w1 [a|e]].
  - intros Hk Hne Hc Hkk. rewrite (Hc _ _ eq_refl) by discriminate. now apply Hkk.
  - intros [= <- <-] Hne Hc _. rewrite (Hc _ _ eq_refl); [reflexivity|].
    intros [= ->]. now apply Hne.
Qed.

(** A result that is not [RecursionError] is the result at every greater
    depth. *)
Lemma reply_loop_deeper cfg archive (self self' : json -> M string) items :
  (forall q w w' r, self q w = (w', r) -> r <> Raise RecursionError ->
                    self' q w = (w', r)) ->
  forall bodytext w w' r,
    reply_loop cfg self archive items bodytext w = (w', r) ->
    r <> Raise RecursionError ->
    reply_loop cfg self' archive items bodytext w = (w', r).
Proof.
  intros Hself. induction items as [|reply rest IH]; intros bodytext w w' r;
    cbn [reply_loop]; [trivial|].
  intros Hrun Hne. apply (bind_same_head _ _ _ _ _ _ Hrun).
  intros q w1 _ Hq. destruct (truthy q); [|now apply IH].
  apply (bind_same_head _ _ _ _ _ _ Hq). intros _ w2 _ Hs.
  apply (bind_deeper _ _ _ _ _ _ _ Hs Hne).
  - intros w3 r1. apply Hself.
  - intros t w3 Hrest. now apply IH.
Qed.

Lemma make_post_text_deeper cfg archive depth : forall depth' post w w' r,
  (depth <= depth')%nat ->
  make_post_text depth cfg archive post w = (w', r) ->
  r <> Raise RecursionError ->
  make_post_text depth' cfg archive post w = (w', r).
Proof.
  induction depth as [|depth IH]; intros depth' post w w' r Hle.
  - intros [= <- <-] Hne. now contradict Hne.
  - destruct depth' as [|depth']; [lia|]. cbn [make_post_text].
    destruct (negb (truthy post)); [trivial|].
    intros Hrun Hne. apply (bind_same_head _ _ _ _ _ _ Hrun).
    intros bodytext w1 _ H1. apply (bind_same_head _ _ _ _ _ _ H1).
    intros items w2 _ H2. apply (bind_same_head _ _ _ _ _ _ H2).
    intros _ w3 _ H3. apply (reply_loop_deeper _ _ _ _ _ (fun q v v' s => IH depth' q v v' s ltac:(lia)) _ _ _ _ H3 Hne).
Qed.

(** C10.  On an archive whose reply graph has no cycle, the thread
    reconstructor ends without exhausting the depth of recursion as soon
    as that depth exceeds the number of records: the call returns its text
    (or raises the error of a malformed record), and every greater depth
    gives the same outcome. *)
Theorem thread_terminates_when_acyclic cfg archive :
  acyclic cfg archive ->
  forall post w depth,
    (length (archive_items archive) < depth)%nat ->
    snd (make_post_text depth cfg archive post w) <> Raise RecursionError /\
    make_post_text depth cfg archive post w
    = make_post_text (S (length (archive_items archive))) cfg archive post w.
Proof.
  intros Hacyclic post w depth Hlen.
  assert (Hcalm : forall d, (length (archive_items archive) < d)%nat ->
            snd (make_post_text d cfg archive post w) <> Raise RecursionError).
  { intros d Hd.
    destruct (make_post_text d cfg archive post w) as [w' [t|e]] eqn:Hrun;
      cbn [snd]; [discriminate|].
    intros [= ->].
    now apply (calm_from_any_post cfg archive Hacyclic d post Hd _ _ _ Hrun). }
  split; [now apply Hcalm|].
  specialize (Hcalm (S (length (archive_items archive))) (Nat.lt_succ_diag_r _)).
  destruct (make_post_text (S (length (archive_items archive))) cfg archive post w)
    as [w' r] eqn:Hrun.
  apply (make_post_text_deeper _ _ _ depth _ _ _ _ Hlen Hrun). exact Hcalm.
Qed.

End Depth.

(** ** Two archives: a thread without a cycle, and a post that answers
    itself *)

Section FindSteps.

Context `{L : Library}.

Lemma find_loop_cons_owned cfg apost rest postid id w :
  debug cfg = false ->
  usable_with_id apost = true ->
  owned_by cfg apost = Ret true ->
  post_id apost = Ret id ->
  find_loop cfg (apost :: rest) postid w
  = if py_eq id postid then (w, Ret apost) else find_loop cfg rest postid w.
Proof.
  intros Hdebug Hus Hown Hid. cbn [find_loop]. rewrite Hus. cbn [negb].
  unfold bind at 1, lift at 1. rewrite Hown. cbn [negb].
  unfold post_id in Hid.
  destruct (getitem apost "object") as [object|]; [|discriminate].
  cbn [obind] in Hid. unfold bind at 1, lift at 1. unfold bind at 1, lift at 1.
  rewrite Hid. destruct (py_eq id postid); [|reflexivity].
  unfold bind, debug_print. now rewrite Hdebug.
Qed.

Lemma find_loop_cons_foreign cfg apost rest postid w :
  debug cfg = false ->
  owned_by cfg apost = Ret false ->
  find_loop cfg (apost :: rest) postid w = find_loop cfg rest postid w.
Proof.
  intros Hdebug Hown. cbn [find_loop].
  destruct (negb (usable_with_id apost)); [reflexivity|].
  unfold bind at 1, lift at 1. rewrite Hown. cbn [negb].
  unfold bind, debug_print. now rewrite Hdebug.
Qed.

End FindSteps.

Lemma thread_archive_targets id w w' q :
  @find_post_by_id plain_library example_config thread_archive id w = (w', Ret q) ->
  truthy q = true ->
  (q = thread_root /\ py_eq (JStr "1") id = true) \/
  (q = thread_reply /\ py_eq (JStr "2") id = true /\ py_eq (JStr "1") id = false).
Proof.
  unfold find_post_by_id, thread_archive.
  cbn [getitem assoc String.eqb Ascii.eqb Bool.eqb lift bind py_iter obind].
  rewrite (find_loop_cons_owned _ _ _ _ (JStr "1")) by reflexivity.
  destruct (py_eq (JStr "1") id) eqn:H1.
  - intros [= <- <-] _. now left.
  - rewrite find_loop_cons_foreign by reflexivity.
    rewrite (find_loop_cons_owned _ _ _ _ (JStr "2")) by reflexivity.
    destruct (py_eq (JStr "2") id) eqn:H2.
    + intros [= <- <-] _. right. auto.
    + cbn [find_loop]. intros [= <- <-]. discriminate.
Qed.

Lemma thread_reply_has_no_reply q :
  ~ @reply_edge plain_library example_config thread_archive thread_reply q.
Proof. intros (items & id & w & w' & [= <-] & [] & _). Qed.

Lemma thread_root_reply q :
  @reply_edge plain_library example_config thread_archive thread_root q ->
  q = thread_reply.
Proof.
  intros (items & id & w & w' & [= <-] & Hin & Hfind & Hq).
  destruct (thread_archive_targets _ _ _ _ Hfind Hq) as [[_ H1] | [-> _]]; [|reflexivity].
  destruct Hin as [<- | [<- | []]]; discriminate.
Qed.

Lemma thread_archive_acyclic : @acyclic plain_library example_config thread_archive.
Proof.
  intros p Hcycle.
  assert (Htarget : p = thread_root \/ p = thread_reply).
  { apply clos_trans_tn1 in Hcycle.
    assert (Hlast : exists z, @reply_edge plain_library example_config thread_archive z p)
      by (destruct Hcycle; eauto).
    destruct Hlast as (z & items & id & w & w' & _ & _ & Hfind & Hq).
    destruct (thread_archive_targets _ _ _ _ Hfind Hq) as [[-> _] | [-> _]]; auto. }
  apply clos_trans_t1n in Hcycle.
  destruct Htarget as [-> | ->].
  - inversion Hcycle as [y Hstep | y z Hstep Hrest]; subst.
    + apply thread_root_reply in Hstep. discriminate.
    + apply thread_root_reply in Hstep as ->.
      inversion Hrest as [y Hstep | y z Hstep _]; subst;
        exact (thread_reply_has_no_reply _ Hstep).
  - inversion Hcycle as [y Hstep | y z Hstep _]; subst;
      exact (thread_reply_has_no_reply _ Hstep).
Qed.

(** The thread of the example ends within the depth of four calls, and a
    depth of seven gives the same text. *)
Lemma thread_terminates_when_acyclic_witness :
  snd (@make_post_text plain_library 7 example_config thread_archive thread_root
         empty_world) <> Raise RecursionError /\
  @make_post_text plain_library 7 example_config thread_archive thread_root empty_world
  = @make_post_text plain_library 4 example_config thread_archive thread_root empty_world.
Proof.
  apply (@thread_terminates_when_acyclic plain_library example_config thread_archive
           thread_archive_acyclic thread_root empty_world 7).
  cbn. lia.
Defined.

(** Without the hypothesis the call does not end: a post that lists its
    own id among its replies exhausts every depth. *)
Example self_reply_overflows : forall depth w,
  @make_post_text plain_library depth example_config self_reply_archive self_reply w
  = (w, Raise RecursionError).
Proof.
  induction depth as [|depth IH]; intros w; [reflexivity|].
  cbn [make_post_text]. change (negb (truthy self_reply)) with false. cbv iota.
  unfold bind at 1. change (post_body example_config self_reply w)
    with (w, Ret ("<p>again</p>" +:+ nl)). cbv iota.
  unfold bind at 1, lift at 1. change (reply_items self_reply) with (Ret [JStr "1"]).
  cbv iota. unfold bind at 1. cbn [debug_print debug example_config ret].
  cbn [reply_loop]. unfold bind at 1.
  assert (Hfind : @find_post_by_id plain_library example_config self_reply_archive
                    (JStr "1") w = (w, Ret self_reply)).
  { unfold find_post_by_id, self_reply_archive.
    cbn [getitem assoc String.eqb Ascii.eqb Bool.eqb lift bind py_iter obind].
    now rewrite (find_loop_cons_owned _ _ _ _ (JStr "1")) by reflexivity. }
  rewrite Hfind. change (truthy self_reply) with true. cbv iota.
  unfold bind at 1. cbn [debug_print debug example_config ret].
  unfold bind at 1. now rewrite IH.
Qed.

(** ** Invariants of the world *)

Section Invariants.

Context `{L : Library}.
Variable I : World -> Prop.
Variable cfg : config.
Hypothesis I_print : forall s, keeps I (print s).
Hypothesis I_makedirs : forall d, keeps I (makedirs d).
Hypothesis I_copy2 :
  forall src b, keeps I (copy2 src (attachment_dir cfg +:+ "/" +:+ b)).

Lemma keeps_world {A : Type} (c : M A) w w' r :
  keeps I c -> I w -> c w = (w', r) -> I w'.
Proof. intros Hc HI Hrun. specialize (Hc _ _ _ HI Hrun). now destruct r. Qed.

Lemma keeps_debug_print s : keeps I (debug_print cfg s).
Proof. unfold debug_print. destruct (debug cfg); [apply I_print | apply keeps_ret]. Qed.

Ltac keeps_step :=
  first
    [ apply keeps_ret
    | apply keeps_raise
    | apply keeps_lift
    | apply I_print
    | apply keeps_debug_print
    | apply keeps_isfile
    | apply keeps_path_exists
    | apply I_makedirs
    | apply I_copy2
    | apply keeps_bind; [|intros ?]
    | match goal with
      | |- keeps _ (if ?b then _ else _) => destruct b
      | |- keeps _ (match ?x with _ => _ end) => destruct x
      end ].

Lemma keeps_process_attachment att att_txt : keeps I (process_attachment cfg att att_txt).
Proof. unfold process_attachment. repeat keeps_step. Qed.

Lemma keeps_attachment_loop atts : forall att_txt, keeps I (attachment_loop cfg atts att_txt).
Proof.
  induction atts as [|att atts IH]; intros att_txt; cbn [attachment_loop].
  - apply keeps_ret.
  - apply keeps_bind; [apply keeps_process_attachment | intros t; apply IH].
Qed.

Lemma keeps_process_attachments post : keeps I (process_attachments cfg post).
Proof.
  unfold process_attachments. repeat first [apply keeps_attachment_loop | keeps_step].
Qed.

Lemma keeps_post_body post : keeps I (post_body cfg post).
Proof.
  unfold post_body. repeat first [apply keeps_process_attachments | keeps_step].
Qed.

Lemma keeps_find_loop items postid : keeps I (find_loop cfg items postid).
Proof.
  induction items as [|apost rest IH]; cbn [find_loop]; [apply keeps_ret|].
  repeat first [exact IH | keeps_step].
Qed.

Lemma keeps_find_post_by_id archive postid : keeps I (find_post_by_id cfg archive postid).
Proof.
  unfold find_post_by_id. repeat first [apply keeps_find_loop | keeps_step].
Qed.

Lemma keeps_reply_loop archive (self : json -> M string) items :
  (forall q, keeps I (self q)) ->
  forall bodytext, keeps I (reply_loop cfg self archive items bodytext).
Proof.
  intros Hself. induction items as [|reply rest IH]; intros bodytext; cbn [reply_loop].
  - apply keeps_ret.
  - repeat first [apply keeps_find_post_by_id | apply Hself | apply IH | keeps_step].
Qed.

Lemma keeps_make_post_text archive depth : forall post,
  keeps I (make_post_text depth cfg archive post).
Proof.
  induction depth as [|depth IH]; intros post; cbn [make_post_text].
  - apply keeps_raise.
  - repeat first [apply keeps_post_body | apply keeps_reply_loop; exact IH | keeps_step].
Qed.


End Invariants.

(** ** The exclusive write and the second run *)

Lemma startswith_app a b : startswith a (a +:+ b) = true.
Proof.
  induction a as [|c a IH]; [reflexivity|].
  rewrite append_cons. cbn [startswith]. unfold eqc. now rewrite Ascii.eqb_refl.
Qed.

Lemma startswith_trans a b c :
  startswith a b = true -> startswith b c = true -> startswith a c = true.
Proof.
  revert b c. induction a as [|x a IH]; intros b c; [reflexivity|].
  destruct b as [|y b]; [discriminate|]. destruct c as [|z c]; [discriminate|].
  cbn [startswith]. unfold eqc. intros Hab Hbc.
  apply andb_true_iff in Hab as [Hxy Hab]. apply andb_true_iff in Hbc as [Hyz Hbc].
  apply Ascii.eqb_eq in Hxy as ->. rewrite Hyz. cbn [andb]. now apply (IH b c).
Qed.


Lemma under_attachment_target cfg b :
  under (attachment_dir cfg) (attachment_dir cfg +:+ "/" +:+ b) = true.
Proof. unfold under. rewrite <- append_assoc. apply startswith_app. Qed.

Lemma under_path_join dir dst x :
  under dir dst = true -> under dir (path_join dst x) = true.
Proof.
  unfold under, path_join. intros Hdst. destruct dst as [|c dst].
  - destruct dir; discriminate.
  - eapply startswith_trans; [exact Hdst|].
    destruct (endswith_char "/" (String c dst)); apply startswith_app.
Qed.

Lemma extends_refl w : extends w w.
Proof. now intros p. Qed.

Lemma extends_trans w0 w1 w2 : extends w0 w1 -> extends w1 w2 -> extends w0 w2.
Proof. intros H01 H12 p Hp. now apply H12, H01. Qed.


Section WorldSteps.

Variables (cfg : config) (w0 : World).

Lemma extends_print s : keeps (extends w0) (print s).
Proof. intros w w' r He [= <- <-]. exact He. Qed.

Lemma extends_makedirs d : keeps (extends w0) (makedirs d).
Proof.
  intros w w' r He. unfold makedirs.
  destruct (exists_in w d); intros [= <- <-]; [exact He|].
  intros p Hp. specialize (He p Hp). unfold exists_in in *. cbn.
  apply orb_true_iff in He as [Hf | Hd]; apply orb_true_iff; [now left | right].
  apply bool_decide_eq_true. apply bool_decide_eq_true in Hd. set_solver.
Qed.

Lemma exists_in_insert w p target data :
  exists_in w p = true ->
  exists_in (mkWorld (<[target := data]> (files w)) (dirs w) (stdout w)) p = true.
Proof.
  unfold exists_in. cbn. intros He.
  apply orb_true_iff in He as [Hf | Hd]; apply orb_true_iff; [left | now right].
  apply bool_decide_eq_true. apply bool_decide_eq_true in Hf.
  apply lookup_insert_is_Some. destruct (decide (target = p)); auto.
Qed.

Lemma extends_copy2 src dst : keeps (extends w0) (copy2 src dst).
Proof.
  intros w w' r He. unfold copy2.
  destruct (files w !! src) as [data|]; [|intros [= <- <-]; exact He].
  destruct (String.eqb src _); intros [= <- <-]; [exact He|].
  intros p Hp. now apply exists_in_insert, He.
Qed.




Lemma outside_print s : keeps (same_outside_attachments cfg w0) (print s).
Proof. intros w w' r Hs [= <- <-]. exact Hs. Qed.

Lemma outside_makedirs d : keeps (same_outside_attachments cfg w0) (makedirs d).
Proof.
  intros w w' r Hs. unfold makedirs.
  destruct (exists_in w d); intros [= <- <-]; exact Hs.
Qed.

Lemma outside_copy2 src b :
  keeps (same_outside_attachments cfg w0)
        (copy2 src (attachment_dir cfg +:+ "/" +:+ b)).
Proof.
  intros w w' r Hs. unfold copy2.
  set (dst := attachment_dir cfg +:+ "/" +:+ b).
  set (target := if bool_decide (dst ∈ dirs w) then path_join dst (basename src) else dst).
  assert (Htarget : under (attachment_dir cfg) target = true).
  { unfold target. destruct (bool_decide _);
      [apply under_path_join|]; apply under_attachment_target. }
  destruct (files w !! src) as [data|]; [|intros [= <- <-]; exact Hs].
  destruct (String.eqb src target); intros [= <- <-]; [exact Hs|].
  intros p Hp. cbn. rewrite lookup_insert_ne; [now apply Hs|].
  intros <-. congruence.
Qed.

End WorldSteps.

Lemma keeps_both {A : Type} (I J : World -> Prop) (c : M A) :
  keeps I c -> keeps J c -> keeps (fun w => I w /\ J w) c.
Proof.
  intros HI HJ w w' r [Hi Hj] Hrun.
  specialize (HI _ _ _ Hi Hrun). specialize (HJ _ _ _ Hj Hrun). now destruct r.
Qed.

Lemma keeps_fact {A : Type} (I : World -> Prop) (fact : Prop) (c : M A) :
  keeps I c -> keeps (fun w => I w /\ fact) c.
Proof.
  intros HI w w' r [Hi Hfact] Hrun. specialize (HI _ _ _ Hi Hrun). now destruct r.
Qed.

(** *** The selection does not depend on the world *)

Section Talks.

Context {A B : Type}.

Lemma talks_ret (a : A) : talks (ret a).
Proof. exists [], (Ret a). intros w. unfold ret. now rewrite say_nil. Qed.

Lemma talks_lift (o : outcome A) : talks (lift o).
Proof. exists [], o. intros w. unfold lift. now rewrite say_nil. Qed.

Lemma talks_bind (c : M A) (k : A -> M B) :
  talks c -> (forall a, talks (k a)) -> talks (bind c k).
Proof.
  intros (out & r & Hc) Hk. destruct r as [a|e].
  - destruct (Hk a) as (out' & r' & Hka). exists (out ++ out'), r'.
    intros w. unfold bind. now rewrite Hc, Hka, say_say.
  - exists out, (Raise e). intros w. unfold bind. now rewrite Hc.
Qed.

End Talks.

Lemma talks_debug_print cfg s : talks (debug_print cfg s).
Proof.
  unfold debug_print. destruct (debug cfg); [|apply talks_ret].
  now exists [s], (Ret tt).
Qed.

Lemma talks_is_exportable `{L : Library} cfg apost : talks (is_exportable cfg apost).
Proof.
  unfold is_exportable.
  repeat first
    [ apply talks_ret
    | apply talks_lift
    | apply talks_debug_print
    | apply talks_bind; [|intros ?]
    | match goal with
      | |- talks (if ?b then _ else _) => destruct b
      end ].
Qed.


(** *** The exclusive write *)

Lemma write_post_existing filename post_text apost target_posts w :
  exists_in w filename = true ->
  write_post filename post_text apost target_posts w
  = (say w [filename +:+ " already exists, not overwriting."], Ret target_posts).
Proof. intros He. unfold write_post, open_x_write. now rewrite He. Qed.





Section Runs.

Context `{L : Library}.
Variables (depth : nat) (cfg : config) (archive : json).






End Runs.

(** *** The second run *)

Section SecondRun.

Context `{L : Library}.
Variables (depth : nat) (cfg : config) (archive : json).
Variable w1 : World.
Variable I : World -> Prop.
Hypothesis I_print : forall s, keeps I (print s).
Hypothesis I_makedirs : forall d, keeps I (makedirs d).
Hypothesis I_copy2 :
  forall src b, keeps I (copy2 src (attachment_dir cfg +:+ "/" +:+ b)).
Hypothesis I_extends : forall w, I w -> extends w1 w.




End SecondRun.

Section TwoRuns.

Context `{L : Library}.
Variables (depth : nat) (cfg : config) (archive : json).





End TwoRuns.



(** * Further properties of the script *)

(** ** Titles and slugs *)

Lemma eqc_sym a b : eqc a b = eqc b a.
Proof. unfold eqc. apply Ascii.eqb_sym. Qed.

Lemma replace_removes_char c s :
  all_chars (fun x => negb (eqc x c)) (replace (String c "") "" s) = true.
Proof.
  cbn [replace]. induction s as [|a s IH]; [reflexivity|].
  cbn [replace_from startswith String.length Nat.sub]. rewrite andb_true_r.
  destruct (eqc c a) eqn:Hca.
  - rewrite append_nil_l. exact IH.
  - cbn [all_chars]. now rewrite eqc_sym, Hca, IH.
Qed.

Lemma all_chars_and p q s :
  all_chars (fun c => p c && q c) s = all_chars p s && all_chars q s.
Proof.
  induction s as [|c s IH]; [reflexivity|]. cbn [all_chars]. rewrite IH.
  destruct (p c), (q c), (all_chars p s), (all_chars q s); reflexivity.
Qed.

Lemma clean_word_chars_ok w : all_chars title_char_ok (clean_word w) = true.
Proof.
  unfold title_char_ok, clean_word. rewrite !all_chars_and.
  repeat (apply andb_true_iff; split).
  - do 2 apply replace_all_chars. apply replace_removes_char.
  - apply replace_all_chars. apply (replace_removes_char "034").
  - apply replace_removes_char.
Qed.

Lemma join_all_chars p sep ws :
  all_chars p sep = true ->
  Forall (fun w => all_chars p w = true) ws ->
  all_chars p (join sep ws) = true.
Proof.
  intros Hsep. induction 1 as [|w ws Hw Hws IH]; [reflexivity|].
  destruct ws as [|w' ws]; [exact Hw|].
  change (join sep (w :: w' :: ws)) with (w +:+ sep +:+ join sep (w' :: ws)).
  now rewrite !all_chars_app, Hw, Hsep, IH.
Qed.

Lemma rstrip_all_chars p q s : all_chars p s = true -> all_chars p (rstrip q s) = true.
Proof.
  intros Hs. destruct (rstrip_prefix q s) as [t Ht]. rewrite Ht in Hs.
  rewrite all_chars_app in Hs. now apply andb_true_iff in Hs as [Hs _].
Qed.

Lemma startswith_all_chars p pre s :
  startswith pre s = true -> all_chars p s = true -> all_chars p pre = true.
Proof.
  revert s. induction pre as [|a pre IH]; intros s; [reflexivity|].
  destruct s as [|b s]; [discriminate|]. cbn [startswith all_chars].
  intros Hpre Hs. apply andb_true_iff in Hpre as [Hab Hpre].
  apply andb_true_iff in Hs as [Hb Hs]. apply Ascii.eqb_eq in Hab as ->.
  rewrite Hb. exact (IH _ Hpre Hs).
Qed.

Lemma rstrip_no_trailing p s c : p c = true -> endswith_char c (rstrip p s) = false.
Proof.
  intros Hc. induction s as [|a s IH]; [reflexivity|].
  cbn [rstrip]. destruct (rstrip p s) as [|b r] eqn:Hr.
  - destruct (p a) eqn:Ha; [reflexivity|]. cbn [endswith_char].
    destruct (eqc a c) eqn:Hac; [|reflexivity].
    apply Ascii.eqb_eq in Hac. congruence.
  - exact IH.
Qed.

Section TitleShape.

Context `{L : Library}.

Lemma title_of_content_chars_ok cfg content :
  all_chars title_char_ok (title_of_content cfg content) = true.
Proof.
  unfold title_of_content.
  destruct (title_loop_spec (firstn (max_title_words cfg) (split (plain_text content))) [])
    as (kept & rest & _ & -> & _). cbn [app].
  apply rstrip_all_chars, join_all_chars; [reflexivity|].
  apply Forall_map, Forall_forall. intros w _. apply clean_word_chars_ok.
Qed.

(** X1.  A derived title holds no colon, no double quote and no single
    quote: they are taken out of every word, and joining the words adds
    spaces only. *)
Theorem title_has_no_colon_or_quote cfg post title :
  make_post_title cfg post = Ret title ->
  all_chars title_char_ok title = true.
Proof.
  intros Ht. destruct (make_post_title_inv _ _ _ Ht) as (content & _ & ->).
  apply title_of_content_chars_ok.
Qed.

Lemma title_never_boost cfg post title :
  make_post_title cfg post = Ret title ->
  startswith "RE: " title = false.
Proof.
  intros Ht. destruct (make_post_title_inv _ _ _ Ht) as (content & _ & ->).
  destruct (startswith "RE: " (title_of_content cfg content)) eqn:Hre; [|reflexivity].
  pose proof (startswith_all_chars _ _ _ Hre (title_of_content_chars_ok cfg content)) as H.
  discriminate H.
Qed.

(** X2.  No derived title starts with [RE: ]: the colon was removed from
    the word.  The test for a boost in [main] is therefore never true. *)
Theorem boost_test_never_true cfg post title :
  make_post_title cfg post = Ret title ->
  startswith "RE: " title = false.
Proof. apply title_never_boost. Qed.

(** X3.  A derived title does not end with a punctuation character. *)
Theorem title_has_no_trailing_punctuation cfg post title c :
  make_post_title cfg post = Ret title ->
  is_punct c = true ->
  endswith_char c title = false.
Proof.
  intros Ht Hc. destruct (make_post_title_inv _ _ _ Ht) as (content & _ & ->).
  unfold title_of_content. now apply rstrip_no_trailing.
Qed.

End TitleShape.

Lemma title_has_no_colon_or_quote_witness :
  @make_post_title plain_library example_config boost_like_activity
  = Ret "RE Someones post, its great" /\
  all_chars title_char_ok "RE Someones post, its great" = true.
Proof.
  split; [reflexivity|].
  exact (@title_has_no_colon_or_quote plain_library example_config boost_like_activity
           _ eq_refl).
Defined.

(** The record that looks like a boost is selected all the same. *)
Lemma boost_test_never_true_witness :
  startswith "RE: " "RE Someones post, its great" = false /\
  @is_exportable plain_library example_config boost_like_activity empty_world
  = (empty_world, Ret true).
Proof.
  split; [|reflexivity].
  exact (@boost_test_never_true plain_library example_config boost_like_activity
           _ eq_refl).
Defined.

Lemma title_has_no_trailing_punctuation_witness :
  endswith_char "!" "RE Someones post, its great" = false.
Proof.
  exact (@title_has_no_trailing_punctuation plain_library example_config
           boost_like_activity _ "!" eq_refl eq_refl).
Defined.

Lemma lower_char_not_upper c : is_upper (lower_char c) = false.
Proof.
  destruct c as [[] [] [] [] [] [] [] []]; reflexivity.
Qed.

Lemma map_chars_all_chars p f s :
  (forall c, p (f c) = true) -> all_chars p (map_chars f s) = true.
Proof.
  intros Hf. induction s as [|c s IH]; [reflexivity|].
  cbn [map_chars all_chars]. now rewrite Hf, IH.
Qed.

Lemma filter_chars_all_chars p q s :
  all_chars p s = true -> all_chars p (filter_chars q s) = true.
Proof.
  induction s as [|c s IH]; [reflexivity|]. cbn [all_chars filter_chars].
  intros Hs. apply andb_true_iff in Hs as [Hc Hs].
  destruct (q c); [cbn [all_chars]; rewrite Hc|]; now apply IH.
Qed.

Lemma filter_chars_holds q s : all_chars q (filter_chars q s) = true.
Proof.
  induction s as [|c s IH]; [reflexivity|]. cbn [filter_chars].
  destruct (q c) eqn:Hc; [cbn [all_chars]; now rewrite Hc|exact IH].
Qed.

Lemma replace_from_chars p old new s :
  all_chars p new = true -> all_chars p s = true ->
  forall k, all_chars p (replace_from k old new s) = true.
Proof.
  intros Hnew. induction s as [|c s IH]; intros Hs k; [reflexivity|].
  cbn [all_chars] in Hs. apply andb_true_iff in Hs as [Hc Hs].
  cbn [replace_from]. destruct k as [|k]; [|now apply IH].
  destruct (startswith old (String c s)).
  - rewrite all_chars_app, Hnew. now apply IH.
  - cbn [all_chars]. rewrite Hc. now apply IH.
Qed.

Lemma all_chars_impl (p q : ascii -> bool) s :
  (forall c, p c = true -> q c = true) -> all_chars p s = true -> all_chars q s = true.
Proof.
  intros Hpq. induction s as [|c s IH]; [reflexivity|]. cbn [all_chars].
  intros Hs. apply andb_true_iff in Hs as [Hc Hs]. now rewrite (Hpq _ Hc), IH.
Qed.

Lemma all_chars_map_chars p q f s :
  (forall c, p c = true -> q (f c) = true) ->
  all_chars p s = true -> all_chars q (map_chars f s) = true.
Proof.
  intros Hf. induction s as [|c s IH]; [reflexivity|]. cbn [all_chars map_chars].
  intros Hs. apply andb_true_iff in Hs as [Hc Hs]. now rewrite (Hf _ Hc), IH.
Qed.

Lemma all_chars_not_contains p c s :
  p c = false -> all_chars p s = true -> contains (String c "") s = false.
Proof.
  intros Hc. induction s as [|a s IH]; [reflexivity|]. cbn [all_chars].
  intros Hs. apply andb_true_iff in Hs as [Ha Hs].
  cbn [contains startswith]. rewrite (IH Hs), andb_true_r, orb_false_r.
  destruct (eqc c a) eqn:Hca; [|reflexivity].
  apply Ascii.eqb_eq in Hca. congruence.
Qed.

Lemma slug_of_title_chars_ok title : all_chars slug_char_ok (slug_of_title title) = true.
Proof.
  unfold slug_of_title.
  apply all_chars_map_chars
    with (p := fun c => negb (is_punct c) && negb (is_upper c)).
  - intros c Hc. apply andb_true_iff in Hc as [Hp Hu].
    destruct (is_space c) eqn:Hs; [reflexivity|].
    unfold slug_char_ok. now rewrite Hs, Hp, Hu.
  - apply replace_from_chars; [reflexivity|].
    rewrite all_chars_and. apply andb_true_iff. split.
    + apply (filter_chars_holds (fun c => negb (is_punct c))).
    + apply filter_chars_all_chars. unfold lower.
      apply map_chars_all_chars. intros c. now rewrite lower_char_not_upper.
Qed.

(** X4.  A slug holds no whitespace, no ASCII capital and no punctuation
    but the hyphen; in particular it holds no slash, so the file it names
    lies in the posts directory itself. *)
Theorem slug_is_safe `{L : Library} cfg post slug :
  make_post_slug cfg post = Ret slug ->
  all_chars slug_char_ok slug = true /\ contains "/" slug = false.
Proof.
  unfold make_post_slug.
  destruct (make_post_title cfg post) as [title|]; [|discriminate].
  cbn [obind]. intros [= <-].
  pose proof (slug_of_title_chars_ok title) as Hok.
  split; [exact Hok|]. now apply (all_chars_not_contains slug_char_ok).
Qed.

Lemma slug_is_safe_witness :
  @make_post_slug plain_library example_config boost_like_activity
  = Ret "re-someones-post-its-great" /\
  contains "/" "re-someones-post-its-great" = false.
Proof.
  split; [reflexivity|].
  exact (proj2 (@slug_is_safe plain_library example_config boost_like_activity
                  _ eq_refl)).
Defined.

(** ** Tag extractor *)

Lemma tag_loop_spec lc ro entries : forall acc tags,
  tag_loop lc ro entries acc = Ret tags ->
  exists new,
    tags = acc ++ new /\
    Forall2 (tag_of_entry lc ro) (List.filter is_hashtag entries) new.
Proof.
  induction entries as [|entry entries IH]; intros acc tags.
  - cbn. intros [= <-]. exists []. rewrite app_nil_r. split; [reflexivity | constructor].
  - cbn [tag_loop List.filter]. unfold is_hashtag.
    destruct (getitem entry "type") as [ty|]; [|discriminate]. cbn [obind].
    destruct (py_eq ty (JStr "Hashtag")); [|apply IH].
    destruct (getitem entry "name") as [name|] eqn:Hname; [|discriminate].
    cbn [obind].
    assert (Hstep : forall t,
              tag_of_entry lc ro entry t ->
              tag_loop lc ro entries (acc ++ [t]) = Ret tags ->
              exists new, tags = acc ++ new /\
                Forall2 (tag_of_entry lc ro)
                        (entry :: List.filter is_hashtag entries) new).
    { intros t Ht Hrest. destruct (IH _ _ Hrest) as (new & -> & Hnew).
      exists (t :: new). rewrite <- app_assoc. split; [reflexivity | now constructor]. }
    destruct name as [| | |s| |]; destruct lc, ro; cbn [str_method obind];
      try discriminate;
      apply Hstep; eexists; (split; [exact Hname|]); cbn; auto.
Qed.

(** X5.  The tag extractor returns one tag for every entry of type
    Hashtag, in the order of the entries, and nothing for the other
    entries; each tag is the name of its entry, lowercased when the first
    flag is set and stripped of its leading [#] characters when the second
    one is. *)
Theorem get_post_tags_hashtags_in_order post lowercase removeoctothorpe tags :
  get_post_tags post lowercase removeoctothorpe = Ret tags ->
  Forall2 (tag_of_entry lowercase removeoctothorpe)
          (List.filter is_hashtag (tag_entries post)) tags.
Proof.
  unfold get_post_tags, tag_entries.
  destruct (getitem post "object") as [object|]; [|discriminate]. cbn [obind].
  destruct object as [| | | | |kvs]; try discriminate;
    try (cbn [py_in obind]; destruct (negb _); cbn;
         [intros [= <-]; constructor | discriminate]).
  cbn [py_in obind getitem]. unfold has_key.
  destruct (assoc "tag" kvs) as [tag|]; cbn [negb obind];
    [|intros [= <-]; constructor].
  destruct tag; try (intros [= <-]; constructor).
  intros Hl. destruct (tag_loop_spec _ _ _ _ _ Hl) as (new & -> & Hnew).
  exact Hnew.
Qed.

Lemma get_post_tags_hashtags_in_order_witness :
  get_post_tags tagged_activity true true = Ret [JStr "cats"; JStr "dogs"] /\
  Forall2 (tag_of_entry true true)
          (List.filter is_hashtag (tag_entries tagged_activity))
          [JStr "cats"; JStr "dogs"].
Proof.
  split; [reflexivity|].
  exact (get_post_tags_hashtags_in_order tagged_activity true true _ eq_refl).
Defined.

Lemma tag_loop_lower_readable ro entries : forall acc tags,
  tag_loop true ro entries acc = Ret tags ->
  forallb tag_entry_ok entries = true.
Proof.
  induction entries as [|entry entries IH]; intros acc tags; [reflexivity|].
  cbn [tag_loop forallb]. unfold tag_entry_ok.
  destruct (getitem entry "type") as [ty|]; [|discriminate]. cbn [obind].
  destruct (py_eq ty (JStr "Hashtag")); [|apply IH].
  destruct (getitem entry "name") as [name|]; [|discriminate]. cbn [obind].
  destruct name; try discriminate. cbn [str_method obind].
  destruct ro; cbn [str_method obind]; apply IH.
Qed.

(** X6.  As [main] calls it (lowercase on), the tag extractor raises
    exactly when the tag list holds an entry it cannot read: an entry that
    is no dict or has no [type], or a Hashtag entry without a string
    [name].  One such entry makes the whole call raise. *)
Theorem get_post_tags_raises_on_unreadable_entry post o removeoctothorpe :
  getitem post "object" = Ret (JDict o) ->
  (exists tags, get_post_tags post true removeoctothorpe = Ret tags) <->
  forallb tag_entry_ok (tag_entries post) = true.
Proof.
  intros Hobj. unfold get_post_tags, tag_entries. rewrite Hobj.
  cbn [obind py_in getitem]. unfold has_key.
  destruct (assoc "tag" o) as [tag|]; cbn [negb obind]; [|split; eauto].
  destruct tag as [| | | |l|]; try solve [split; eauto].
  split.
  - intros (tags & Hl). exact (tag_loop_lower_readable _ _ _ _ Hl).
  - intros Hok. now apply tag_loop_total.
Qed.

Lemma get_post_tags_raises_on_unreadable_entry_witness :
  (exists tags, get_post_tags tagged_activity true false = Ret tags) <->
  forallb tag_entry_ok (tag_entries tagged_activity) = true.
Proof.
  exact (get_post_tags_raises_on_unreadable_entry tagged_activity _ false eq_refl).
Defined.

(** ** Post selector, both ways *)

Section Selection.

Context `{L : Library}.

Lemma reject_not_true cfg s w w' :
  (let! _ := debug_print cfg s in ret false) w = (w', Ret true) -> False.
Proof.
  destruct (reject_run cfg s w) as (v & Hrun & _). rewrite Hrun. discriminate.
Qed.

Lemma usable_inv apost :
  usable apost = true ->
  exists kvs o, apost = JDict kvs /\ assoc "object" kvs = Some (JDict o).
Proof.
  unfold usable. destruct apost as [| | | | |kvs]; try discriminate.
  destruct (assoc "object" kvs) as [object|] eqn:Hobj; [|discriminate].
  destruct object; try discriminate. eauto.
Qed.

Lemma reply_test_root kvs o :
  assoc "object" kvs = Some (JDict o) ->
  (let? present := py_in "inReplyTo" (JDict o) in
   if present then
     let? inReplyTo := getitem (JDict o) "inReplyTo" in Ret (truthy inReplyTo)
   else Ret false) = Ret false <->
  is_root (JDict kvs).
Proof.
  intros Hobj. unfold is_root. cbn [py_in obind getitem]. unfold has_key. rewrite Hobj.
  destruct (assoc "inReplyTo" o) as [v|] eqn:Hv; cbn [obind].
  - split.
    + intros [= Hf] object u [= <-]. cbn [getitem]. rewrite Hv. now intros [= <-].
    + intros Hroot. f_equal. apply (Hroot (JDict o) v); [reflexivity|].
      cbn [getitem]. now rewrite Hv.
  - split; [|reflexivity]. intros _ object u [= <-]. cbn [getitem]. now rewrite Hv.
Qed.

Lemma wanted_tags_met wanted tags :
  (nonempty wanted && negb (nonempty tags) = false /\
   nonempty wanted && negb (tags_overlap wanted tags) = false) <->
  (wanted = [] \/ tags_overlap wanted tags = true).
Proof.
  destruct wanted as [|x wanted].
  - cbn. tauto.
  - cbn [nonempty andb]. split.
    + intros [_ H]. right. now apply negb_false_iff in H.
    + intros [[=] | H]. rewrite H. split; [|reflexivity].
      destruct tags; [|reflexivity]. now rewrite tags_overlap_nil in H.
Qed.

Lemma selection_accepts_iff cfg apost w w' :
  is_exportable cfg apost w = (w', Ret true) <->
  (w' = w /\ owned_by cfg apost = Ret true /\ is_root apost /\
   exists tags title,
     get_post_tags apost true false = Ret tags /\
     (wanted_tags cfg = [] \/ tags_overlap (wanted_tags cfg) tags = true) /\
     make_post_title cfg apost = Ret title).
Proof.
  split.
  - intros Hrun. unfold is_exportable in Hrun.
    destruct (usable apost) eqn:Hus; cbn [negb] in Hrun;
      [|now apply reject_not_true in Hrun].
    destruct (usable_inv _ Hus) as (kvs & o & -> & Hobj).
    apply bind_ret_inv in Hrun as (owned & w1 & Hown & Hrun).
    apply lift_inv in Hown as [-> Hown].
    destruct owned; cbn [negb] in Hrun; [|now apply reject_not_true in Hrun].
    apply bind_ret_inv in Hrun as (object & w1 & Hobject & Hrun).
    apply lift_inv in Hobject as [-> Hobject].
    cbn [getitem] in Hobject. rewrite Hobj in Hobject. injection Hobject as ->.
    apply bind_ret_inv in Hrun as (is_reply & w1 & Hreply & Hrun).
    apply lift_inv in Hreply as [-> Hreply].
    destruct is_reply; [now apply reject_not_true in Hrun|].
    apply bind_ret_inv in Hrun as (tags & w1 & Htags & Hrun).
    apply lift_inv in Htags as [-> Htags].
    destruct (nonempty (wanted_tags cfg) && negb (nonempty tags)) eqn:Hnone;
      [now apply reject_not_true in Hrun|].
    destruct (nonempty (wanted_tags cfg) && negb (tags_overlap (wanted_tags cfg) tags))
      eqn:Hover; [now apply reject_not_true in Hrun|].
    apply bind_ret_inv in Hrun as (title & w1 & Htitle & Hrun).
    apply lift_inv in Htitle as [-> Htitle].
    destruct (startswith "RE: " title); [now apply reject_not_true in Hrun|].
    injection Hrun as <-.
    split; [reflexivity|]. split; [now symmetry|].
    split; [now apply (reply_test_root kvs o Hobj)|].
    exists tags, title. split; [now symmetry|]. split; [|now symmetry].
    now apply wanted_tags_met.
  - intros (-> & Hown & Hroot & tags & title & Htags & Hwanted & Htitle).
    destruct (owned_by_true_inv _ _ Hown) as (kvs & o & -> & Hobj).
    apply (reply_test_root kvs o Hobj) in Hroot.
    apply wanted_tags_met in Hwanted as [Hnone Hover].
    unfold is_exportable, usable. rewrite Hobj. cbn [negb].
    unfold bind at 1, lift at 1. rewrite Hown. cbn [negb].
    unfold bind at 1, lift at 1. cbn [getitem]. rewrite Hobj.
    unfold bind at 1, lift at 1. rewrite Hroot.
    unfold bind at 1, lift at 1. rewrite Htags, Hnone, Hover.
    unfold bind at 1, lift at 1. rewrite Htitle.
    now rewrite (title_never_boost _ _ _ Htitle).
Qed.

(** X7.  The selection accepts a record exactly when the record is owned
    by the configured identity, starts a thread, has tags and a title that
    can be read, and its lowercased tags meet the wanted tags or no tag
    is wanted.  Accepting a record prints nothing and changes nothing. *)
Theorem selection_accepts_exactly cfg apost w w' :
  is_exportable cfg apost w = (w', Ret true) <->
  (w' = w /\ owned_by cfg apost = Ret true /\ is_root apost /\
   exists tags title,
     get_post_tags apost true false = Ret tags /\
     (wanted_tags cfg = [] \/ tags_overlap (wanted_tags cfg) tags = true) /\
     make_post_title cfg apost = Ret title).
Proof. apply selection_accepts_iff. Qed.

(** X8.  The answer of the selection depends on the record and on the
    configuration only: it is the same in every world, and the selection
    leaves the files and the directories as they are. *)
Theorem selection_ignores_the_world cfg apost w1 w1' r1 w2 w2' r2 :
  is_exportable cfg apost w1 = (w1', r1) ->
  is_exportable cfg apost w2 = (w2', r2) ->
  r1 = r2 /\ files w1' = files w1 /\ dirs w1' = dirs w1.
Proof.
  destruct (talks_is_exportable cfg apost) as (out & r & Hrun).
  rewrite !Hrun. intros [= <- <-] [= _ <-]. now split.
Qed.

End Selection.

Lemma selection_ignores_the_world_witness :
  snd (@is_exportable plain_library example_config example_activity empty_world)
  = snd (@is_exportable plain_library example_config example_activity media_world).
Proof.
  exact (proj1 (@selection_ignores_the_world plain_library example_config
                  example_activity empty_world _ _ media_world _ _
                  (surjective_pairing _) (surjective_pairing _))).
Defined.

(** ** Reply lookup, completeness *)

Section Lookup.

Context `{L : Library}.

Lemma same_disk_refl w : same_disk w w.
Proof. now split. Qed.

Lemma same_disk_trans w1 w2 w3 : same_disk w1 w2 -> same_disk w2 w3 -> same_disk w1 w3.
Proof. intros [Hf Hd] [Hf' Hd']. split; congruence. Qed.

Lemma debug_print_same_disk cfg s w :
  exists w', debug_print cfg s w = (w', Ret tt) /\ same_disk w w'.
Proof.
  destruct (debug_print_run cfg s w) as (w' & Hrun & Hf & Hd).
  exists w'. now repeat split.
Qed.

Lemma find_loop_passes cfg postid a rest w :
  passed_over cfg postid a ->
  exists w', find_loop cfg (a :: rest) postid w = find_loop cfg rest postid w'
             /\ same_disk w w'.
Proof.
  intros Hpass. cbn [find_loop].
  destruct (usable_with_id a) eqn:Hus; cbn [negb];
    [|exists w; split; [reflexivity | apply same_disk_refl]].
  destruct Hpass as [Hno | [Hforeign | (Hown & id & Hid & Hne)]]; [congruence| |].
  - unfold bind at 1, lift at 1. rewrite Hforeign. cbn [negb].
    destruct (debug_print_same_disk cfg "Skipping reply: Wrong actor." w) as (w' & Hd & Hs).
    exists w'. split; [|exact Hs]. unfold bind at 1. now rewrite Hd.
  - unfold bind at 1, lift at 1. rewrite Hown. cbn [negb].
    unfold post_id in Hid.
    destruct (getitem a "object") as [object|]; [|discriminate]. cbn [obind] in Hid.
    unfold bind at 1, lift at 1. unfold bind at 1, lift at 1. rewrite Hid, Hne.
    exists w. split; [reflexivity | apply same_disk_refl].
Qed.



Lemma find_loop_no_match cfg postid items : forall w,
  Forall (passed_over cfg postid) items ->
  exists w', find_loop cfg items postid w = (w', Ret (JDict [])) /\ same_disk w w'.
Proof.
  induction items as [|a items IH]; intros w Hall.
  - exists w. split; [reflexivity | apply same_disk_refl].
  - inversion Hall as [|? ? Ha Hall']; subst.
    destruct (find_loop_passes cfg postid a items w Ha) as (w1 & Hstep & Hs1).
    destruct (IH w1 Hall') as (w' & Hrun & Hs2).
    exists w'. split; [|exact (same_disk_trans _ _ _ Hs1 Hs2)]. now rewrite Hstep.
Qed.

Lemma find_post_by_id_read cfg archive postid items w :
  read_items archive = Ret items ->
  find_post_by_id cfg archive postid w = find_loop cfg items postid w.
Proof.
  unfold read_items, find_post_by_id. intros Hread.
  unfold bind at 1, lift at 1.
  destruct (getitem archive "orderedItems") as [orderedItems|]; [|discriminate].
  cbn [obind] in Hread. unfold bind at 1, lift at 1. now rewrite Hread.
Qed.


(** X10.  When the loop passes over every record of the archive, the
    reply lookup returns the empty dict, which the thread reconstructor
    takes for no reply; nothing on disk is changed. *)
Theorem find_post_by_id_returns_empty cfg archive postid items w :
  read_items archive = Ret items ->
  Forall (passed_over cfg postid) items ->
  exists w', find_post_by_id cfg archive postid w = (w', Ret (JDict [])) /\
             same_disk w w'.
Proof.
  intros Hread Hall. rewrite (find_post_by_id_read _ _ _ _ _ Hread).
  now apply find_loop_no_match.
Qed.

End Lookup.


Lemma find_post_by_id_returns_empty_witness :
  exists w',
    @find_post_by_id plain_library example_config thread_archive (JStr "9") empty_world
    = (w', Ret (JDict [])) /\ same_disk empty_world w'.
Proof.
  apply (@find_post_by_id_returns_empty plain_library example_config thread_archive
           (JStr "9") [thread_root; foreign_reply; thread_reply]); [reflexivity|].
  constructor; [|constructor; [|constructor; [|constructor]]].
  - right. right. split; [reflexivity|]. now exists (JStr "1").
  - right. now left.
  - right. right. split; [reflexivity|]. now exists (JStr "2").
Defined.

(** ** Attachments that are present *)


Section PresentAttachments.

Context `{L : Library}.





End PresentAttachments.



(** ** The alt text *)

Lemma replace_char_gone c new s :
  all_chars (fun x => negb (eqc x c)) new = true ->
  all_chars (fun x => negb (eqc x c)) (replace (String c "") new s) = true.
Proof.
  intros Hnew. cbn [replace]. induction s as [|a s IH]; [reflexivity|].
  cbn [replace_from startswith String.length Nat.sub]. rewrite andb_true_r.
  destruct (eqc c a) eqn:Hca.
  - now rewrite all_chars_app, Hnew, IH.
  - cbn [all_chars]. now rewrite eqc_sym, Hca, IH.
Qed.

Lemma html_escape_attr_ok s :
  all_chars (fun x => negb (eqc x "010")) s = true ->
  all_chars attr_char_ok (html_escape s) = true.
Proof.
  induction s as [|c s IH]; [reflexivity|]. cbn [all_chars html_escape].
  intros Hs. apply andb_true_iff in Hs as [Hc Hs].
  rewrite all_chars_app, (IH Hs), andb_true_r.
  destruct (eqc c "&"); [reflexivity|].
  destruct (eqc c "<") eqn:Hlt; [reflexivity|].
  destruct (eqc c ">") eqn:Hgt; [reflexivity|].
  destruct (eqc c "034") eqn:Hdq; [reflexivity|].
  destruct (eqc c "'") eqn:Hsq; [reflexivity|].
  cbn [all_chars]. unfold attr_char_ok. now rewrite Hdq, Hlt, Hgt, Hsq, Hc.
Qed.

(** X13.  The alt attribute that the markup of an attachment carries is
    empty or one quoted value, and the value holds no double quote, no
    single quote, no angle bracket and no newline: the alt text of an
    attachment cannot end the attribute or the line it stands on. *)
Theorem alt_attribute_is_quoted_safely att attribute :
  alt_attribute att = Ret attribute ->
  attribute = EmptyString \/
  exists value,
    attribute = " alt=" +:+ dquote +:+ value +:+ dquote /\
    all_chars attr_char_ok value = true.
Proof.
  unfold alt_attribute.
  destruct (getitem att "name") as [name|]; [|discriminate]. cbn [obind].
  destruct (truthy name); [|intros [= <-]; now left].
  destruct name; try discriminate. cbn [str_method obind].
  intros [= <-]. right. eexists. split; [reflexivity|].
  apply html_escape_attr_ok. now apply (replace_char_gone "010" " ").
Qed.

Lemma alt_attribute_is_quoted_safely_witness :
  alt_attribute hostile_alt_attachment
  = Ret (" alt=" +:+ dquote +:+ "&lt;b&gt;&#x27;cat&#x27;&lt;/b&gt;" +:+ dquote) /\
  (" alt=" +:+ dquote +:+ "&lt;b&gt;&#x27;cat&#x27;&lt;/b&gt;" +:+ dquote = EmptyString \/
   exists value,
     " alt=" +:+ dquote +:+ "&lt;b&gt;&#x27;cat&#x27;&lt;/b&gt;" +:+ dquote
     = " alt=" +:+ dquote +:+ value +:+ dquote /\
     all_chars attr_char_ok value = true).
Proof.
  split; [reflexivity|].
  exact (alt_attribute_is_quoted_safely hostile_alt_attachment _ eq_refl).
Defined.

(** ** What the thread reconstructor does to the disk *)

Section ThreadFrame.

Context `{L : Library}.
Variables (cfg : config) (w0 : World).

(** X14.  Whatever its outcome, the thread reconstructor removes no path
    and writes below the attachment directory only: every other file is
    left as it was. *)
Theorem make_post_text_writes_attachments_only depth archive post w' r :
  make_post_text depth cfg archive post w0 = (w', r) ->
  extends w0 w' /\ same_outside_attachments cfg w0 w'.
Proof.
  intros Hrun.
  refine (keeps_world (fun w => extends w0 w /\ same_outside_attachments cfg w0 w)
            _ _ _ _ _ _ Hrun).
  - apply keeps_make_post_text.
    + intros s. apply keeps_both; [apply extends_print | apply outside_print].
    + intros d. apply keeps_both; [apply extends_makedirs | apply outside_makedirs].
    + intros src b. apply keeps_both; [apply extends_copy2 | apply outside_copy2].
  - split; [apply extends_refl | now intros p _].
Qed.

End ThreadFrame.

Lemma make_post_text_writes_attachments_only_witness :
  extends media_world
    (fst (@make_post_text plain_library 5 example_config illustrated_archive
            illustrated_activity media_world)) /\
  same_outside_attachments example_config media_world
    (fst (@make_post_text plain_library 5 example_config illustrated_archive
            illustrated_activity media_world)).
Proof.
  exact (@make_post_text_writes_attachments_only plain_library example_config media_world
           5 illustrated_archive illustrated_activity _ _ (surjective_pairing _)).
Defined.

(** ** Replies and attachments in the order they are listed *)

Section ListedOrder.

Context `{L : Library}.

Lemma reply_loop_listed cfg self archive items : forall bodytext w w' text,
  reply_loop cfg self archive items bodytext w = (w', Ret text) ->
  exists posts texts,
    Forall2 (resolves cfg archive) items posts /\
    Forall2 (fun q t => exists v v', self q v = (v', Ret t))
            (List.filter truthy posts) texts /\
    text = bodytext +:+ tail_join texts.
Proof.
  induction items as [|reply rest IH]; intros bodytext w w' text; cbn [reply_loop].
  - intros [= _ <-]. exists [], []. repeat split; try constructor.
    cbn [tail_join]. now rewrite append_nil_r.
  - intros Hrun.
    apply bind_ret_inv in Hrun as (q & w1 & Hfind & Hrun).
    assert (Hq : resolves cfg archive reply q) by now exists w, w1.
    destruct (truthy q) eqn:Htruthy.
    + apply bind_ret_inv in Hrun as (? & w2 & _ & Hrun).
      apply bind_ret_inv in Hrun as (t & w3 & Hself & Hrun).
      destruct (IH _ _ _ _ Hrun) as (posts & texts & Hposts & Htexts & ->).
      exists (q :: posts), (t :: texts). split; [now constructor|]. split.
      * cbn [List.filter]. rewrite Htruthy. constructor; [now exists w2, w3 | exact Htexts].
      * cbn [tail_join]. now rewrite <- !append_assoc.
    + destruct (IH _ _ _ _ Hrun) as (posts & texts & Hposts & Htexts & ->).
      exists (q :: posts), texts. split; [now constructor|]. split; [|reflexivity].
      cbn [List.filter]. now rewrite Htruthy.
Qed.

(** X15.  The text of a thread follows the order in which the post lists
    its replies.  When [make_post_text] returns on a post that is not
    empty, the ids of [replies.first.items] resolve, one by one and in
    their order, to records [posts]; the text is the body of the post
    followed by the texts that [make_post_text] returned for those of
    [posts] that are not empty, each after a newline, in that order. *)
Theorem replies_follow_listed_order depth cfg archive post w w' text :
  truthy post = true ->
  make_post_text (S depth) cfg archive post w = (w', Ret text) ->
  exists body items posts texts,
    rendered cfg (post, body) /\
    reply_items post = Ret items /\
    Forall2 (resolves cfg archive) items posts /\
    Forall2 (fun q t => exists v v', make_post_text depth cfg archive q v = (v', Ret t))
            (List.filter truthy posts) texts /\
    text = body +:+ tail_join texts.
Proof.
  intros Htruthy. cbn [make_post_text]. rewrite Htruthy. cbn [negb]. intros Hrun.
  apply bind_ret_inv in Hrun as (body & w1 & Hbody & Hrun).
  apply bind_ret_inv in Hrun as (items & w2 & Hitems & Hrun).
  apply lift_inv in Hitems as [-> Hitems].
  apply bind_ret_inv in Hrun as (? & w3 & _ & Hrun).
  destruct (reply_loop_listed _ _ _ _ _ _ _ _ Hrun) as (posts & texts & Hposts & Htexts & ->).
  exists body, items, posts, texts.
  split; [now exists w, w1|]. split; [now symmetry|]. auto.
Qed.

(** One turn of the attachment loop that returns: the attachment was
    missing and the text is as it was, or the text has grown by the markup
    of the attachment. *)
Lemma process_attachment_step cfg att att_txt w w' text :
  process_attachment cfg att att_txt w = (w', Ret text) ->
  exists markup, markup_of cfg w att markup /\ text = att_txt +:+ markup.
Proof.
  unfold process_attachment. intros Hrun.
  apply bind_ret_inv in Hrun as (source & w1 & Hsrc & Hrun).
  apply lift_inv in Hsrc as [-> Hsrc].
  apply bind_ret_inv in Hrun as (present & w1 & [= <- <-] & Hrun).
  destruct (files w !! source) as [data|] eqn:Hdata.
  - replace (bool_decide (is_Some (Some data))) with true in Hrun
      by (symmetry; apply bool_decide_eq_true; eauto).
    cbn [negb] in Hrun.
    apply bind_ret_inv in Hrun as (markup & w1 & Hmarkup & Hrun).
    apply lift_inv in Hmarkup as [-> Hmarkup].
    do 3 (apply bind_ret_inv in Hrun as (? & ? & _ & Hrun)).
    unfold ret in Hrun. injection Hrun as _ <-.
    exists markup. split; [|reflexivity]. exists source. split; [now symmetry | now left].
  - replace (bool_decide (is_Some (@None string))) with false in Hrun
      by (symmetry; apply bool_decide_eq_false; now intros [? [=]]).
    cbn [negb] in Hrun.
    apply bind_ret_inv in Hrun as (? & ? & _ & Hrun).
    unfold ret in Hrun. injection Hrun as _ <-.
    exists EmptyString. split; [|now rewrite append_nil_r].
    exists source. split; [now symmetry | now right].
Qed.

Lemma files_print w0 s : keeps (keeps_files w0) (print s).
Proof. intros w w' r Hk [= <- <-]. exact Hk. Qed.

Lemma files_makedirs w0 d : keeps (keeps_files w0) (makedirs d).
Proof.
  intros w w' r Hk. unfold makedirs.
  destruct (exists_in w d); intros [= <- <-]; exact Hk.
Qed.

Lemma files_copy2 w0 src dst : keeps (keeps_files w0) (copy2 src dst).
Proof.
  intros w w' r Hk. unfold copy2.
  destruct (files w !! src) as [data|]; [|intros [= <- <-]; exact Hk].
  destruct (String.eqb src _); intros [= <- <-]; [exact Hk|].
  intros p. cbn. intros Hp. apply lookup_insert_None in Hp as [Hp _]. now apply Hk.
Qed.

(** X16.  The markup of the attachments is put together in the order of
    the attachments.  When the loop over the attachments returns, the text
    is the text it started from followed by one piece for every attachment,
    in the order of the list: the markup of the attachment, or, only for an
    attachment whose file was not there when the loop started, nothing. *)
Theorem attachment_markup_in_listed_order cfg atts : forall att_txt w w' text,
  attachment_loop cfg atts att_txt w = (w', Ret text) ->
  exists markups,
    Forall2 (markup_of cfg w) atts markups /\
    text = att_txt +:+ glued markups.
Proof.
  induction atts as [|att rest IH]; intros att_txt w w' text; cbn [attachment_loop].
  - intros [= _ <-]. exists []. split; [constructor|]. cbn. now rewrite append_nil_r.
  - intros Hrun.
    apply bind_ret_inv in Hrun as (t & w1 & Hstep & Hrun).
    assert (Hfiles : keeps_files w w1).
    { refine (keeps_world (keeps_files w) _ _ _ _ _ _ Hstep); [|now intros p].
      apply keeps_process_attachment;
        [apply files_print | apply files_makedirs | intros; apply files_copy2]. }
    destruct (process_attachment_step _ _ _ _ _ _ Hstep) as (markup & Hmarkup & ->).
    destruct (IH _ _ _ _ Hrun) as (markups & Hmarkups & ->).
    exists (markup :: markups). split.
    + constructor; [exact Hmarkup|].
      eapply Forall2_impl; [exact Hmarkups|].
      intros a m (source & Hsrc & [Hm | [Hnone ->]]); exists source;
        (split; [exact Hsrc|]); [now left | right; split; [now apply Hfiles | reflexivity]].
    + cbn [glued]. now rewrite <- append_assoc.
Qed.

End ListedOrder.

(** The root of [listed_archive] lists reply 3 before reply 2: the text
    has them in that order, not in the order of the archive. *)
Lemma replies_follow_listed_order_witness :
  exists body items posts texts,
    @rendered plain_library example_config (listed_root, body) /\
    reply_items listed_root = Ret items /\
    Forall2 (@resolves plain_library example_config listed_archive) items posts /\
    Forall2 (fun q t => exists v v',
               @make_post_text plain_library 4 example_config listed_archive q v
               = (v', Ret t))
            (List.filter truthy posts) texts /\
    "<p>root</p>" +:+ nl +:+ nl +:+ "<p>third</p>" +:+ nl +:+ nl +:+ "<p>second</p>" +:+ nl
    = body +:+ tail_join texts.
Proof.
  refine (@replies_follow_listed_order plain_library 4 example_config listed_archive
            listed_root empty_world empty_world _ eq_refl _).
  vm_compute. reflexivity.
Defined.

(** Two attachments that are there, the one with the hostile alt text
    first: the text has their markup in that order. *)
Lemma attachment_markup_in_listed_order_witness :
  exists markups,
    Forall2 (@markup_of plain_library example_config site_world)
            [hostile_alt_attachment; present_attachment] markups /\
    nl +:+ "{% include figure popup=true image_path=" +:+ dquote
       +:+ "./assets/images/cat.png" +:+ dquote
       +:+ " alt=" +:+ dquote +:+ "&lt;b&gt;&#x27;cat&#x27;&lt;/b&gt;" +:+ dquote
       +:+ " %}" +:+ nl
       +:+ nl +:+ "{% include figure popup=true image_path=" +:+ dquote
       +:+ "./assets/images/cat.png" +:+ dquote
       +:+ " alt=" +:+ dquote +:+ "cat" +:+ dquote +:+ " %}" +:+ nl
    = "" +:+ glued markups.
Proof.
  refine (@attachment_markup_in_listed_order plain_library example_config
            [hostile_alt_attachment; present_attachment] "" site_world
            (fst (@attachment_loop plain_library example_config
                    [hostile_alt_attachment; present_attachment] "" site_world)) _ _).
  vm_compute. reflexivity.
Defined.

(** ** The driver *)

Lemma write_post_fresh_run filename post_text apost target_posts w :
  exists_in w filename = false ->
  write_post filename post_text apost target_posts w
  = (mkWorld (<[filename := post_text]> (files w)) (dirs w) (stdout w),
     match post_id apost with
     | Ret id => Ret (target_posts ++ [id])
     | Raise e => Raise e
     end).
Proof.
  intros Hfree. unfold write_post, open_x_write, post_id. rewrite Hfree.
  unfold bind, lift, ret.
  destruct (getitem apost "object") as [object|]; [|reflexivity]. cbn [obind].
  now destruct (getitem object "id").
Qed.



Section Driver.

Context `{L : Library}.
Variables (depth : nat) (cfg : config) (archive : json).

Lemma export_post_ids apost target_posts w w' tp' :
  export_post depth cfg archive apost target_posts w = (w', Ret tp') ->
  tp' = target_posts \/
  exists id, post_id apost = Ret id /\ tp' = target_posts ++ [id].
Proof.
  unfold export_post. intros Hrun.
  do 10 (apply bind_ret_inv in Hrun as (? & ? & _ & Hrun)).
  match type of Hrun with write_post ?f _ _ _ ?v = _ =>
    destruct (exists_in v f) eqn:Hx end.
  - rewrite write_post_existing in Hrun by exact Hx. injection Hrun as _ <-. now left.
  - rewrite write_post_fresh_run in Hrun by exact Hx.
    destruct (post_id apost) as [id|]; [|discriminate].
    injection Hrun as _ <-. right. now exists id.
Qed.

(** X18.  The posts that a run counts as generated are records of the
    archive that the selection accepted, in the order of the archive: the
    list of generated posts grows by the ids of a subsequence of the
    records, id by id in the order of these records, and each of them is
    owned by the configured identity and starts a thread. *)
Theorem generated_posts_are_selected items : forall target_posts w w' tp',
  main_loop depth cfg archive items target_posts w = (w', Ret tp') ->
  exists exported new,
    sublist exported items /\
    Forall2 (fun apost id =>
               post_id apost = Ret id /\
               owned_by cfg apost = Ret true /\ is_root apost) exported new /\
    tp' = target_posts ++ new.
Proof.
  induction items as [|apost rest IH]; intros tp w w' tp'.
  - intros [= _ <-]. exists [], []. rewrite app_nil_r. repeat split; constructor.
  - cbn [main_loop]. intros Hrun.
    apply bind_ret_inv in Hrun as (wanted & w1 & Hsel & Hrun).
    destruct wanted.
    + apply selection_accepts_iff in Hsel as (_ & Hown & Hroot & _).
      apply bind_ret_inv in Hrun as (tp1 & w2 & Hexport & Hrun).
      destruct (IH _ _ _ _ Hrun) as (exported & new & Hsub & Hnew & ->).
      destruct (export_post_ids _ _ _ _ _ Hexport) as [-> | (id & Hid & ->)].
      * exists exported, new. split; [now apply sublist_cons | auto].
      * exists (apost :: exported), (id :: new). split; [now apply sublist_skip|].
        split; [now constructor|]. now rewrite <- app_assoc.
    + destruct (IH _ _ _ _ Hrun) as (exported & new & Hsub & Hnew & ->).
      exists exported, new. split; [now apply sublist_cons | auto].
Qed.

End Driver.

(** Two selected records with a reply between them: the generated posts
    are their ids, in the order of the archive. *)
Lemma generated_posts_are_selected_witness :
  exists exported new,
    sublist exported [illustrated_activity; thread_reply; later_activity] /\
    Forall2 (fun apost id =>
               post_id apost = Ret id /\
               owned_by example_config apost = Ret true /\ is_root apost) exported new /\
    [JStr "1"; JStr "7"] = [] ++ new.
Proof.
  refine (@generated_posts_are_selected plain_library 5 example_config illustrated_archive
            [illustrated_activity; thread_reply; later_activity] [] site_world
            (fst (@main_loop plain_library 5 example_config illustrated_archive
                    [illustrated_activity; thread_reply; later_activity] [] site_world))
            _ _).
  vm_compute. reflexivity.
Defined.

(** ** The name of the post file *)

Lemma contains_slash_after a b : contains "/" (a +:+ String "/" b) = true.
Proof.
  induction a as [|c a IH]; [reflexivity|].
  rewrite append_cons. cbn [contains]. rewrite IH. apply orb_true_r.
Qed.

Lemma basename_after_slash a b :
  contains "/" b = false -> basename (a +:+ "/" +:+ b) = b.
Proof.
  intros Hb. change (a +:+ "/" +:+ b) with (a +:+ String "/" b).
  induction a as [|c a IH].
  - rewrite append_nil_l. cbn [basename]. now rewrite Hb.
  - rewrite append_cons. cbn [basename]. now rewrite contains_slash_after.
Qed.

Lemma string_of_uint_no_slash d :
  all_chars (fun c => negb (eqc c "/")) (NilEmpty.string_of_uint d) = true.
Proof. induction d; cbn; auto. Qed.

Lemma of_Z_no_slash z : all_chars (fun c => negb (eqc c "/")) (of_Z z) = true.
Proof.
  unfold of_Z, NilZero.string_of_int, NilZero.string_of_uint.
  destruct (Z.to_int z) as [d|d]; destruct d; cbn [all_chars];
    try reflexivity; cbn -[NilEmpty.string_of_uint all_chars];
    try apply string_of_uint_no_slash;
    exact (string_of_uint_no_slash _).
Qed.

Lemma pad2_no_slash z : all_chars (fun c => negb (eqc c "/")) (pad2 z) = true.
Proof.
  unfold pad2. destruct (z <? 10); [rewrite all_chars_app|]; now rewrite ?of_Z_no_slash.
Qed.

Lemma format_date_no_slash t :
  all_chars (fun c => negb (eqc c "/")) (format_date t) = true.
Proof.
  unfold format_date. destruct (civil_from_days (t / 86400)) as [[y m] d].
  now rewrite !all_chars_app, of_Z_no_slash, !pad2_no_slash.
Qed.

(** X20.  The post file lies in the posts directory itself: its path is
    the directory, a slash and a name without a slash, whatever the
    content and the time stamp of the record are. *)
Theorem post_file_lies_in_posts_dir `{L : Library} cfg post filename :
  make_post_filename cfg post = Ret filename ->
  exists name,
    filename = posts_dir cfg +:+ "/" +:+ name /\
    contains "/" name = false /\
    basename filename = name /\
    under (posts_dir cfg) filename = true.
Proof.
  unfold make_post_filename.
  destruct (make_post_slug cfg post) as [slug|] eqn:Hslug; [|discriminate].
  cbn [obind]. destruct (local_datetime cfg post) as [dt|]; [|discriminate].
  cbn [obind]. intros [= <-].
  set (name := format_date (fst dt) +:+ "-" +:+ slug +:+ ".markdown").
  assert (Hname : contains "/" name = false).
  { assert (Hs : all_chars (fun c => negb (eqc c "/")) slug = true).
    { unfold make_post_slug in Hslug.
      destruct (make_post_title cfg post) as [title|]; [|discriminate].
      cbn [obind] in Hslug. injection Hslug as <-.
      apply (all_chars_impl slug_char_ok); [|apply slug_of_title_chars_ok].
      intros c Hc. destruct (eqc c "/") eqn:Hslash; [|reflexivity].
      apply Ascii.eqb_eq in Hslash. now subst c. }
    apply (all_chars_not_contains (fun c => negb (eqc c "/"))); [reflexivity|].
    unfold name. rewrite !all_chars_app, format_date_no_slash, Hs. reflexivity. }
  exists name. split; [reflexivity|]. split; [exact Hname|].
  split; [now apply basename_after_slash|].
  unfold under. rewrite <- append_assoc. apply startswith_app.
Qed.

Lemma post_file_lies_in_posts_dir_witness :
  exists name,
    "./_posts/2024-01-01-hello-world.markdown" = "./_posts" +:+ "/" +:+ name /\
    contains "/" name = false /\
    basename "./_posts/2024-01-01-hello-world.markdown" = name /\
    under "./_posts" "./_posts/2024-01-01-hello-world.markdown" = true.
Proof.
  exact (@post_file_lies_in_posts_dir plain_library example_config
           example_activity_dated _ eq_refl).
Defined.
